(** * Session tracking and metrics derivation: a shallow embedding

    The development follows two source modules of the application:

    - the listening-session hook ([useListeningSession]): the session record,
      [startSession] / [stopSession] / [clearSession] and one observation
      cycle [pollCurrentlyPlaying], which contains the event inference and the
      state update on the session;
    - the metrics engine ([metricsEngine.calculateDetailedMetrics]).

    JavaScript numbers are idealised as exact rationals ([Q]); rounding error
    of binary64 arithmetic is outside the model.  Counts and lengths are [nat],
    results of [Math.round] and [Math.floor] are [Z].  A quotient by zero is a
    non-finite number in JavaScript and [0] in [Q]: statements about such a
    quotient carry a positivity hypothesis on the divisor. *)

From Stdlib Require Import List String Ascii Bool Arith ZArith NArith QArith Qround.
From Stdlib Require Import Lia Lqa Permutation Sorted DecimalString.
Import ListNotations.

Set Implicit Arguments.

(** ** Numbers *)

Module Num.

(** [x < y] on numbers, as a boolean. *)
Definition ltb (x y : Q) : bool := negb (Qle_bool y x).

(** [x > y]. *)
Definition gtb (x y : Q) : bool := ltb y x.

(** A length or a counter used as a number. *)
Definition of_nat (n : nat) : Q := inject_Z (Z.of_nat n).

(** [Math.round]: the nearest integer, halves towards plus infinity. *)
Definition round (x : Q) : Z := Qfloor (x + (1 # 2)).

(** [Math.floor]. *)
Definition floor (x : Q) : Z := Qfloor x.

(** Truthiness of a number: every number but zero. *)
Definition truthy (x : Q) : bool := negb (Qeq_bool x 0).

(** Truthiness of [number | null]. *)
Definition truthy_opt (x : option Q) : bool :=
  match x with
  | Some q => truthy q
  | None => false
  end.

(** Template-literal rendering of an integer-valued number. *)
Definition show_nat (n : nat) : string := NilZero.string_of_uint (Nat.to_uint n).
Definition show_Z (z : Z) : string := NilZero.string_of_int (Z.to_int z).

End Num.

(** ** Data model ([types/spotify.ts]) *)

Record Artist := mkArtist { artist_name : string }.

Record Image := mkImage { url : string }.

Record Album := mkAlbum { album_name : string; images : list Image }.

(** The declared type has a mandatory [album]; the engine nevertheless guards
    on it ([if (track.album)]), so the field is optional here. *)
Record SpotifyTrack := mkTrack {
  id : string;
  name : string;
  artists : list Artist;
  album : option Album;
  duration_ms : Q
}.

(** One listening occurrence (exported by the session hook). *)
Module TrackListen.
Record t := make {
  track : SpotifyTrack;
  listenDuration : Q;             (* seconds *)
  totalDuration : Q;              (* seconds *)
  wasSkipped : bool;
  wasEarlySkip : bool;
  completionRate : Q;             (* per cent *)
  timestamp : Q
}.
End TrackListen.

(** ** The listening-session hook *)

Module useListeningSession.

Record SessionData := mkSession {
  isActive : bool;
  startTime : option Q;
  endTime : option Q;
  tracks : list SpotifyTrack;
  trackListens : list TrackListen.t;
  totalDuration : Q               (* minutes *)
}.

(** The value of [useState] at first render, also what [clearSession]
    installs. *)
Definition emptySession : SessionData :=
  {| isActive := false; startTime := None; endTime := None;
     tracks := []; trackListens := []; totalDuration := 0 |}.

(** State of the hook: the session and the two tracking refs. *)
Record Hook := mkHook {
  session : SessionData;
  lastTrackIdRef : option string;
  lastProgressRef : Q
}.

Definition initial : Hook :=
  {| session := emptySession; lastTrackIdRef := None; lastProgressRef := 0 |}.

(** [startSession], with [now] the value of [Date.now()]. *)
Definition startSession (now : Q) (h : Hook) : Hook :=
  let newSession :=
    {| isActive := true; startTime := Some now; endTime := None;
       tracks := []; trackListens := []; totalDuration := 0 |} in
  {| session := newSession; lastTrackIdRef := None; lastProgressRef := 0 |}.

(** [stopSession]: the refs are left alone. *)
Definition stopSession (now : Q) (h : Hook) : Hook :=
  let s := session h in
  let endedSession :=
    {| isActive := false; startTime := startTime s; endTime := Some now;
       tracks := tracks s; trackListens := trackListens s;
       totalDuration := totalDuration s |} in
  {| session := endedSession;
     lastTrackIdRef := lastTrackIdRef h;
     lastProgressRef := lastProgressRef h |}.

Definition clearSession (h : Hook) : Hook :=
  {| session := emptySession; lastTrackIdRef := None; lastProgressRef := 0 |}.

(** The functional update handed to [setSession] in [pollCurrentlyPlaying]:
    the store's append of a track and its listen record. *)
Definition append (t : SpotifyTrack) (trackListen : TrackListen.t)
    (currentSession : SessionData) : SessionData :=
  if negb (isActive currentSession) then currentSession
  else
    let trackExists :=
      existsb (fun t' => String.eqb (id t') (id t)) (tracks currentSession) in
    {| isActive := true;
       startTime := startTime currentSession;
       endTime := endTime currentSession;
       tracks := if trackExists then tracks currentSession
                 else tracks currentSession ++ [t];
       trackListens := trackListens currentSession ++ [trackListen];
       totalDuration := totalDuration currentSession + duration_ms t / 1000 / 60 |}.

(** The body of the answer of the now-playing endpoint. *)
Record CurrentlyPlaying := mkPlaying {
  item : option SpotifyTrack;
  progress_ms : option Q
}.

(** What one cycle obtains from its two external calls: whether a token (and
    a refresh token) is at hand, and the answer of the endpoint ([None] for
    nothing playing; a failed call is caught and leaves the state as it is,
    which is what [None] does too). *)
Record Observation := mkObs {
  tokenAvailable : bool;
  currentlyPlaying : option CurrentlyPlaying
}.

(** [track.id !== lastTrackIdRef.current]. *)
Definition differs (tid : string) (last : option string) : bool :=
  match last with
  | Some l => negb (String.eqb tid l)
  | None => true
  end.

(** The listen record built when a track change is detected. *)
Definition mkTrackListen (now : Q) (t : SpotifyTrack) (progressSec durationSec : Q)
    : TrackListen.t :=
  let wasSkipped := Num.ltb progressSec (durationSec - 5) in
  let wasEarlySkip := Num.ltb progressSec 10 in
  let completionRate := (progressSec / durationSec) * 100 in
  TrackListen.make t progressSec durationSec wasSkipped wasEarlySkip completionRate now.

(** [currentlyPlaying.progress_ms || 0]. *)
Definition progressMs (cp : CurrentlyPlaying) : Q :=
  match progress_ms cp with
  | Some p => if Num.truthy p then p else 0
  | None => 0
  end.

(** One observation cycle.  The block that only logs figures about the
    previous track has no effect on the state and is left out. *)
Definition pollCurrentlyPlaying (now : Q) (o : Observation) (h : Hook) : Hook :=
  if negb (tokenAvailable o) then h
  else
    match currentlyPlaying o with
    | None => h
    | Some cp =>
      match item cp with
      | None => h
      | Some t =>
        let progressSec := progressMs cp / 1000 in
        let durationSec := duration_ms t / 1000 in
        if differs (id t) (lastTrackIdRef h) then
          let trackListen := mkTrackListen now t progressSec durationSec in
          {| session := append t trackListen (session h);
             lastTrackIdRef := Some (id t);
             lastProgressRef := progressSec |}
        else
          {| session := session h;
             lastTrackIdRef := lastTrackIdRef h;
             lastProgressRef := progressSec |}
      end
    end.

(** A snapshot reporting track [t] at [ms] milliseconds. *)
Definition snapshot (t : SpotifyTrack) (ms : Q) : Observation :=
  {| tokenAvailable := true;
     currentlyPlaying := Some {| item := Some t; progress_ms := Some ms |} |}.

(** Successive cycles, each with its own clock reading. *)
Fixpoint pollAll (obs : list (Q * Observation)) (h : Hook) : Hook :=
  match obs with
  | [] => h
  | (now, o) :: rest => pollAll rest (pollCurrentlyPlaying now o h)
  end.

(** Session values that the four store operations can produce. *)
Inductive reachable : SessionData -> Prop :=
| reach_empty : reachable emptySession
| reach_start : forall now h,
    reachable (session h) -> reachable (session (startSession now h))
| reach_stop : forall now h,
    reachable (session h) -> reachable (session (stopSession now h))
| reach_clear : forall h,
    reachable (session h) -> reachable (session (clearSession h))
| reach_append : forall t l s,
    reachable s -> reachable (append t l s).

(** [getSessionDuration], in minutes, with [now] the value of [Date.now()]:
    0 without a start time, else the whole minutes from the start to the end
    time, or to [now] while there is no end time.  Both tests are on
    truthiness. *)
Definition getSessionDuration (now : Q) (h : Hook) : Z :=
  match startTime (session h) with
  | Some st =>
    if Num.truthy st then
      let endTime' :=
        match endTime (session h) with
        | Some e => if Num.truthy e then e else now
        | None => now
        end in
      Num.floor ((endTime' - st) / 1000 / 60)
    else 0%Z
  | None => 0%Z
  end.

Module SessionStats.
Record t := make {
  duration : Z;
  trackCount : nat;
  uniqueArtists : nat;
  totalListeningTime : Z
}.
End SessionStats.

(** [getSessionStats]; the artists are counted as the size of the set of
    their names. *)
Definition getSessionStats (now : Q) (h : Hook) : SessionStats.t :=
  {| SessionStats.duration := getSessionDuration now h;
     SessionStats.trackCount := List.length (tracks (session h));
     SessionStats.uniqueArtists :=
       List.length
         (nodup string_dec
            (flat_map (fun t => map artist_name (artists t)) (tracks (session h))));
     SessionStats.totalListeningTime := Num.round (totalDuration (session h)) |}.

(** Hook states that the exported operations and the observation cycles
    produce from the first render. *)
Inductive tracked : Hook -> Prop :=
| tracked_initial : tracked initial
| tracked_start : forall now h, tracked h -> tracked (startSession now h)
| tracked_stop : forall now h, tracked h -> tracked (stopSession now h)
| tracked_clear : forall h, tracked h -> tracked (clearSession h)
| tracked_poll : forall now o h, tracked h -> tracked (pollCurrentlyPlaying now o h).

End useListeningSession.

(** ** The session and its stored copy

    The hook keeps a copy of the session in the key-value store
    ([saveSession], [loadSession]).  The stored string is modelled by the
    session it encodes (finite numbers, strings, booleans and arrays come back
    from JSON as they went in), and the calls to the store are taken to
    succeed. *)

Module storedSession.

Record Device := mkDevice {
  hook : useListeningSession.Hook;
  stored : option useListeningSession.SessionData   (* the item [listening_session] *)
}.

(** Before the first use: the state of the first render, nothing stored. *)
Definition freshInstall : Device :=
  {| hook := useListeningSession.initial; stored := None |}.

(** [loadSession]: the stored session replaces the one in memory when it has
    a start time or a track. *)
Definition loadSession (d : Device) : Device :=
  match stored d with
  | Some parsed =>
    if Num.truthy_opt (useListeningSession.startTime parsed)
       || (0 <? List.length (useListeningSession.tracks parsed))%nat
    then
      {| hook :=
           {| useListeningSession.session := parsed;
              useListeningSession.lastTrackIdRef :=
                useListeningSession.lastTrackIdRef (hook d);
              useListeningSession.lastProgressRef :=
                useListeningSession.lastProgressRef (hook d) |};
         stored := stored d |}
    else d
  | None => d
  end.

(** A new run of the application: the state and the refs start from their
    defaults and the mount effect loads the stored session. *)
Definition mount (d : Device) : Device :=
  loadSession {| hook := useListeningSession.initial; stored := stored d |}.

(** [startSession] with its store traffic: the item is removed, then the new
    session is saved. *)
Definition startSession (now : Q) (d : Device) : Device :=
  let h := useListeningSession.startSession now (hook d) in
  {| hook := h; stored := Some (useListeningSession.session h) |}.

(** [stopSession]: the ended session is saved. *)
Definition stopSession (now : Q) (d : Device) : Device :=
  let h := useListeningSession.stopSession now (hook d) in
  {| hook := h; stored := Some (useListeningSession.session h) |}.

(** [clearSession]: the item is removed. *)
Definition clearSession (d : Device) : Device :=
  {| hook := useListeningSession.clearSession (hook d); stored := None |}.

(** Whether a cycle reaches the update of an active session, which is where
    it saves. *)
Definition records (o : useListeningSession.Observation)
    (h : useListeningSession.Hook) : bool :=
  useListeningSession.tokenAvailable o
  && match useListeningSession.currentlyPlaying o with
     | Some cp =>
       match useListeningSession.item cp with
       | Some t =>
         useListeningSession.differs (id t) (useListeningSession.lastTrackIdRef h)
       | None => false
       end
     | None => false
     end
  && useListeningSession.isActive (useListeningSession.session h).

(** [pollCurrentlyPlaying] with its store traffic. *)
Definition pollCurrentlyPlaying (now : Q) (o : useListeningSession.Observation)
    (d : Device) : Device :=
  let h := useListeningSession.pollCurrentlyPlaying now o (hook d) in
  {| hook := h;
     stored := if records o (hook d)
               then Some (useListeningSession.session h) else stored d |}.

(** The states of a device in use.  The clock never reads zero, the stop
    button is offered while the session is active only, and the application
    may be started anew at any point. *)
Inductive inUse : Device -> Prop :=
| inUse_fresh : inUse freshInstall
| inUse_start : forall now d, ~ now == 0 -> inUse d -> inUse (startSession now d)
| inUse_stop : forall now d,
    useListeningSession.isActive (useListeningSession.session (hook d)) = true ->
    inUse d -> inUse (stopSession now d)
| inUse_clear : forall d, inUse d -> inUse (clearSession d)
| inUse_poll : forall now o d, inUse d -> inUse (pollCurrentlyPlaying now o d)
| inUse_mount : forall d, inUse d -> inUse (mount d).

End storedSession.

(** ** Objects used as dictionaries

    The engine counts in plain objects and reads them back with
    [Object.values].  An object is modelled by its own string-keyed properties
    in creation order.  Enumeration follows the own-property order of the
    language (OrdinaryOwnPropertyKeys): keys that are array indices, that is
    canonical decimal numerals up to 2^32 - 2, come first, in ascending
    numeric order, and the other keys follow in creation order.  So an object
    given the keys Thriller and then 25 lists 25 first.

    Keys are taken not to name a property that every object inherits (such as
    [constructor]), for which the test [!o[k]] of the loops would see the
    inherited value; the ids of the catalogue, 22 alphanumeric characters,
    never do. *)

Module JsObject.

Section Obj.
Variable V : Type.

Definition t := list (string * V).

Definition empty : t := [].

(** [o[k]], [None] for [undefined]. *)
Fixpoint get (k : string) (o : t) : option V :=
  match o with
  | [] => None
  | (k', v) :: rest => if String.eqb k' k then Some v else get k rest
  end.

(** [o[k] = v] for a key without a property yet: a new property, last in
    creation order. *)
Definition add (k : string) (v : V) (o : t) : t := o ++ [(k, v)].

(** In-place change of the value held under [k]. *)
Fixpoint update (f : V -> V) (k : string) (o : t) : t :=
  match o with
  | [] => []
  | (k', v) :: rest =>
    if String.eqb k' k then (k', f v) :: rest
    else (k', v) :: update f k rest
  end.

Definition digit (c : ascii) : option N :=
  let n := N_of_ascii c in
  if ((48 <=? n) && (n <=? 57))%N then Some (n - 48)%N else None.

Fixpoint digits (s : string) (acc : N) : option N :=
  match s with
  | EmptyString => Some acc
  | String c rest =>
    match digit c with
    | Some d => digits rest (10 * acc + d)%N
    | None => None
    end
  end.

(** The decimal numeral of a number. *)
Definition canonical (n : N) : string := NilZero.string_of_uint (N.to_uint n).

(** The numeric value of a key that is an array index: the key reads as a
    number of at most 2^32 - 2 and is the numeral of that number (no sign, no
    leading zero, not empty). *)
Definition arrayIndex (s : string) : option N :=
  match digits s 0 with
  | Some n =>
    if ((n <=? 4294967294)%N && String.eqb (canonical n) s)%bool
    then Some n else None
  | None => None
  end.

(** Insertion of an indexed property among those already in ascending
    order. *)
Fixpoint insertIndexed (n : N) (p : string * V) (l : list (N * (string * V)))
    : list (N * (string * V)) :=
  match l with
  | [] => [(n, p)]
  | (m, q) :: rest =>
    if (n <=? m)%N then (n, p) :: l else (m, q) :: insertIndexed n p rest
  end.

(** The array-index properties, ascending. *)
Fixpoint indexed (o : t) : list (N * (string * V)) :=
  match o with
  | [] => []
  | (k, v) :: rest =>
    match arrayIndex k with
    | Some n => insertIndexed n (k, v) (indexed rest)
    | None => indexed rest
    end
  end.

(** The other properties, in creation order. *)
Definition named (o : t) : t :=
  filter (fun p => match arrayIndex (fst p) with Some _ => false | None => true end) o.

(** [Object.entries]. *)
Definition entries (o : t) : list (string * V) :=
  map snd (indexed o) ++ named o.

(** [Object.values]. *)
Definition values (o : t) : list V := map snd (entries o).

(** [Object.keys]. *)
Definition keys (o : t) : list string := map fst (entries o).

(** [Object.values(o).forEach(v => ...)] with a body that changes the
    visited value in place. *)
Definition forEachValue (f : V -> V) (o : t) : t :=
  map (fun p => (fst p, f (snd p))) o.

End Obj.

End JsObject.

(** ** Arrays *)

Module JsArray.

Section Sort.
Variable A : Type.
(** The comparator of [sort]: negative or zero keeps the first argument
    before the second. *)
Variable compare : A -> A -> Z.

Fixpoint insert (x : A) (l : list A) : list A :=
  match l with
  | [] => [x]
  | y :: rest =>
    if (compare x y <=? 0)%Z then x :: l else y :: insert x rest
  end.

(** [Array.prototype.sort]: the sort is stable, so for a comparator that
    is a total preorder its result is that of this insertion sort. *)
Definition sort (l : list A) : list A := fold_right insert [] l.

(** [slice(0, n)]. *)
Definition slice0 (n : nat) (l : list A) : list A := firstn n l.
End Sort.

End JsArray.

(** ** The metrics engine *)

Inductive Action := remove | keep | investigate.

Module TrackRecommendation.
Record t := make {
  track : SpotifyTrack;
  reason : string;
  action : Action;
  earlySkipCount : nat;
  totalPlays : nat;
  averageCompletion : Q
}.
End TrackRecommendation.

(** An element of [topTracks], [topArtists] or [topAlbums]: what is counted
    ([track], [artist], or the album's name and art) and its [count]. *)
Record Counted (A : Type) := mkCounted { entry : A; count : nat }.

Record AlbumInfo := mkAlbumInfo { album_title : string; albumArt : option string }.

(** The fields the source fills from random draws and from the wall clock;
    they are handed to the engine as they come. *)
Record Simulated := mkSimulated {
  listeningByHour : list (string * Z);
  listeningByDay : list (string * Z);
  peakListeningHour : Z;
  averageEnergy : Q;
  averageDanceability : Q;
  averageValence : Q
}.

Module DetailedMetrics.
Record t := make {
  totalListeningTime : Z;
  topArtists : list (Counted Artist);
  topTracks : list (Counted SpotifyTrack);
  topAlbums : list (Counted AlbumInfo);
  uniqueTracks : nat;
  uniqueArtists : nat;
  simulated : Simulated;
  skipRate : Z;
  completionRate : Z;
  totalSkips : nat;
  earlySkips : nat;
  averageListenDuration : Z;
  overplayedSongs : list SpotifyTrack;
  songsToRemove : list TrackRecommendation.t;
  songsToKeep : list TrackRecommendation.t;
  mostSkippedArtist : string;
  listeningDiversity : Z;
  sessionDuration : Z;
  trackCount : nat
}.
End DetailedMetrics.

Module metricsEngine.

(** The per-track record of the recommendation analysis. *)
Module Analysis.
Record t := make {
  track : SpotifyTrack;
  listens : list TrackListen.t;
  earlySkipCount : nat;
  totalPlays : nat;
  averageCompletion : Q
}.
End Analysis.

(** [tracks.reduce((sum, track) => sum + track.duration_ms / 1000 / 60, 0)]. *)
Definition totalListeningTime (tracks : list SpotifyTrack) : Q :=
  fold_left (fun sum t => sum + duration_ms t / 1000 / 60) tracks 0.

(** [new Set(tracks.map(t => t.id)).size]. *)
Definition uniqueTracks (tracks : list SpotifyTrack) : nat :=
  List.length (nodup string_dec (map id tracks)).

(** One round of a counting loop: create the entry under [k] when [o[k]] is
    missing, then increment its count. *)
Definition tally (A : Type) (k : string) (x : A)
    (o : JsObject.t (Counted A)) : JsObject.t (Counted A) :=
  let o1 :=
    match JsObject.get k o with
    | None => JsObject.add k {| entry := x; count := 0 |} o
    | Some _ => o
    end in
  JsObject.update (fun c => {| entry := entry c; count := S (count c) |}) k o1.

Definition trackCounts (tracks : list SpotifyTrack) : JsObject.t (Counted SpotifyTrack) :=
  fold_left (fun o t => tally (id t) t o) tracks (JsObject.empty _).

(** The comparator [(a, b) => b.count - a.count]. *)
Definition byCountDesc (A : Type) (a b : Counted A) : Z :=
  (Z.of_nat (count b) - Z.of_nat (count a))%Z.

Definition topTracks (tracks : list SpotifyTrack) : list (Counted SpotifyTrack) :=
  JsArray.slice0 10
    (JsArray.sort (@byCountDesc _) (JsObject.values (trackCounts tracks))).

(** The nested loop over every track's artists, keyed by the artist's name. *)
Definition artistCounts (tracks : list SpotifyTrack) : JsObject.t (Counted Artist) :=
  fold_left
    (fun o t => fold_left (fun o' a => tally (artist_name a) a o') (artists t) o)
    tracks (JsObject.empty _).

Definition topArtists (tracks : list SpotifyTrack) : list (Counted Artist) :=
  JsArray.slice0 10
    (JsArray.sort (@byCountDesc _) (JsObject.values (artistCounts tracks))).

(** [Object.keys(artistCounts).length]. *)
Definition uniqueArtists (tracks : list SpotifyTrack) : nat :=
  List.length (JsObject.keys (artistCounts tracks)).

(** [track.album.images?.[0]?.url]. *)
Definition firstImageUrl (a : Album) : option string :=
  match images a with
  | [] => None
  | i :: _ => Some (url i)
  end.

Definition albumCounts (tracks : list SpotifyTrack) : JsObject.t (Counted AlbumInfo) :=
  fold_left
    (fun o t =>
       match album t with
       | Some a =>
         tally (album_name a)
           {| album_title := album_name a; albumArt := firstImageUrl a |} o
       | None => o
       end)
    tracks (JsObject.empty _).

Definition topAlbums (tracks : list SpotifyTrack) : list (Counted AlbumInfo) :=
  JsArray.slice0 5
    (JsArray.sort (@byCountDesc _) (JsObject.values (albumCounts tracks))).

(** Behavioural figures. *)
Definition totalSkips (trackListens : list TrackListen.t) : nat :=
  List.length (filter TrackListen.wasEarlySkip trackListens).

Definition earlySkips (trackListens : list TrackListen.t) : nat :=
  totalSkips trackListens.

Definition skipRate (trackListens : list TrackListen.t) : Z :=
  if (0 <? List.length trackListens)%nat
  then Num.round
         ((Num.of_nat (totalSkips trackListens) / Num.of_nat (List.length trackListens)) * 100)
  else 0%Z.

Definition completionRate (trackListens : list TrackListen.t) : Z :=
  (100 - skipRate trackListens)%Z.

Definition sumCompletion (ls : list TrackListen.t) : Q :=
  fold_left (fun sum l => sum + TrackListen.completionRate l) ls 0.

Definition averageListenDuration (trackListens : list TrackListen.t) : Z :=
  if (0 <? List.length trackListens)%nat
  then Num.round (sumCompletion trackListens / Num.of_nat (List.length trackListens))
  else 0%Z.

(** One round of the grouping loop over the listens. *)
Definition analyseListen (o : JsObject.t Analysis.t) (listen : TrackListen.t)
    : JsObject.t Analysis.t :=
  let trackId := id (TrackListen.track listen) in
  let o1 :=
    match JsObject.get trackId o with
    | None =>
      JsObject.add trackId
        {| Analysis.track := TrackListen.track listen;
           Analysis.listens := [];
           Analysis.earlySkipCount := 0;
           Analysis.totalPlays := 0;
           Analysis.averageCompletion := 0 |} o
    | Some _ => o
    end in
  JsObject.update
    (fun a =>
       {| Analysis.track := Analysis.track a;
          Analysis.listens := Analysis.listens a ++ [listen];
          Analysis.earlySkipCount :=
            if TrackListen.wasEarlySkip listen
            then S (Analysis.earlySkipCount a) else Analysis.earlySkipCount a;
          Analysis.totalPlays := S (Analysis.totalPlays a);
          Analysis.averageCompletion := Analysis.averageCompletion a |})
    trackId o1.

(** The pass that fills in [averageCompletion]. *)
Definition setAverage (a : Analysis.t) : Analysis.t :=
  {| Analysis.track := Analysis.track a;
     Analysis.listens := Analysis.listens a;
     Analysis.earlySkipCount := Analysis.earlySkipCount a;
     Analysis.totalPlays := Analysis.totalPlays a;
     Analysis.averageCompletion :=
       sumCompletion (Analysis.listens a) / Num.of_nat (List.length (Analysis.listens a)) |}.

Definition trackAnalysis (trackListens : list TrackListen.t) : JsObject.t Analysis.t :=
  JsObject.forEachValue setAverage
    (fold_left analyseListen trackListens (JsObject.empty _)).

Definition earlySkipRate (a : Analysis.t) : Q :=
  Num.of_nat (Analysis.earlySkipCount a) / Num.of_nat (Analysis.totalPlays a).

Definition skipReason (a : Analysis.t) : string :=
  String.append "Skipped within 10 seconds "
    (String.append (Num.show_nat (Analysis.earlySkipCount a))
       (String.append "/"
          (String.append (Num.show_nat (Analysis.totalPlays a)) " times"))).

Definition completionReason (a : Analysis.t) : string :=
  String.append "Only "
    (String.append (Num.show_Z (Num.round (Analysis.averageCompletion a)))
       "% average completion").

Definition loveReason (a : Analysis.t) : string :=
  String.append (Num.show_Z (Num.round (Analysis.averageCompletion a)))
    "% average completion - you love this!".

(** The body of the recommendation loop: the recommendation pushed for one
    analysed track, if any. *)
Definition recommend (a : Analysis.t) : option TrackRecommendation.t :=
  if Num.gtb (earlySkipRate a) (1 # 2) || Num.ltb (Analysis.averageCompletion a) 30
  then
    Some {| TrackRecommendation.track := Analysis.track a;
            TrackRecommendation.reason :=
              if Num.gtb (earlySkipRate a) (1 # 2)
              then skipReason a else completionReason a;
            TrackRecommendation.action := remove;
            TrackRecommendation.earlySkipCount := Analysis.earlySkipCount a;
            TrackRecommendation.totalPlays := Analysis.totalPlays a;
            TrackRecommendation.averageCompletion := Analysis.averageCompletion a |}
  else if Num.gtb (Analysis.averageCompletion a) 85
          && (Analysis.earlySkipCount a =? 0)%nat
  then
    Some {| TrackRecommendation.track := Analysis.track a;
            TrackRecommendation.reason := loveReason a;
            TrackRecommendation.action := keep;
            TrackRecommendation.earlySkipCount := Analysis.earlySkipCount a;
            TrackRecommendation.totalPlays := Analysis.totalPlays a;
            TrackRecommendation.averageCompletion := Analysis.averageCompletion a |}
  else None.

(** The two lists the loop pushes onto, [songsToRemove] first. *)
Definition recommendations (trackListens : list TrackListen.t)
    : list TrackRecommendation.t * list TrackRecommendation.t :=
  fold_left
    (fun acc a =>
       match recommend a with
       | Some r =>
         match TrackRecommendation.action r with
         | remove => (fst acc ++ [r], snd acc)
         | _ => (fst acc, snd acc ++ [r])
         end
       | None => acc
       end)
    (JsObject.values (trackAnalysis trackListens)) ([], []).

Definition songsToRemove (trackListens : list TrackListen.t) :=
  fst (recommendations trackListens).

Definition songsToKeep (trackListens : list TrackListen.t) :=
  snd (recommendations trackListens).

Definition overplayedSongs (tracks : list SpotifyTrack) : list SpotifyTrack :=
  JsArray.slice0 5
    (map (@entry _) (filter (fun c => (5 <? count c)%nat) (topTracks tracks))).

Definition mostSkippedArtist (tracks : list SpotifyTrack) : string :=
  if (3 <? List.length (topArtists tracks))%nat
  then List.last (map (fun c => artist_name (entry c)) (topArtists tracks)) EmptyString
  else "Unknown".

Definition listeningDiversity (tracks : list SpotifyTrack) : Z :=
  if (0 <? uniqueArtists tracks)%nat
  then Num.round
         ((Num.of_nat (uniqueArtists tracks) / Num.of_nat (List.length tracks)) * 100)
  else 0%Z.

(** [sessionStartTime && sessionEndTime ? ... : ...]: the test is on
    truthiness, which a zero timestamp fails as [null] does. *)
Definition sessionDuration (tracks : list SpotifyTrack)
    (sessionStartTime sessionEndTime : option Q) : Z :=
  match sessionStartTime, sessionEndTime with
  | Some s, Some e =>
    if Num.truthy s && Num.truthy e
    then Num.floor ((e - s) / 1000 / 60)
    else Num.floor (totalListeningTime tracks)
  | _, _ => Num.floor (totalListeningTime tracks)
  end.

Definition calculateDetailedMetrics (sim : Simulated)
    (tracks : list SpotifyTrack) (trackListens : list TrackListen.t)
    (sessionStartTime sessionEndTime : option Q) : DetailedMetrics.t :=
  {| DetailedMetrics.totalListeningTime := Num.round (totalListeningTime tracks);
     DetailedMetrics.topArtists := topArtists tracks;
     DetailedMetrics.topTracks := topTracks tracks;
     DetailedMetrics.topAlbums := topAlbums tracks;
     DetailedMetrics.uniqueTracks := uniqueTracks tracks;
     DetailedMetrics.uniqueArtists := uniqueArtists tracks;
     DetailedMetrics.simulated := sim;
     DetailedMetrics.skipRate := skipRate trackListens;
     DetailedMetrics.completionRate := completionRate trackListens;
     DetailedMetrics.totalSkips := totalSkips trackListens;
     DetailedMetrics.earlySkips := earlySkips trackListens;
     DetailedMetrics.averageListenDuration := averageListenDuration trackListens;
     DetailedMetrics.overplayedSongs := overplayedSongs tracks;
     DetailedMetrics.songsToRemove := songsToRemove trackListens;
     DetailedMetrics.songsToKeep := songsToKeep trackListens;
     DetailedMetrics.mostSkippedArtist := mostSkippedArtist tracks;
     DetailedMetrics.listeningDiversity := listeningDiversity tracks;
     DetailedMetrics.sessionDuration := sessionDuration tracks sessionStartTime sessionEndTime;
     DetailedMetrics.trackCount := List.length tracks |}.

(** The hour as [generateWrappedInsights] words it. *)
Definition hour12 (peakListeningHour : Z) : string :=
  if (12 <? peakListeningHour)%Z
  then String.append (Num.show_Z (peakListeningHour - 12)) "PM"
  else String.append (Num.show_Z peakListeningHour) "AM".

(** The sentences of [generateWrappedInsights], one definition per template. *)
Definition jammedInsight (hours total : Z) : string :=
  String.append "🎧 You've jammed for "
    (String.append (Num.show_Z hours)
       (String.append " hours ("
          (String.append (Num.show_Z total) " minutes)!"))).

Definition topArtistInsight (c : Counted Artist) : string :=
  String.append "🎤 "
    (String.append (artist_name (entry c))
       (String.append " was your #1 artist with "
          (String.append (Num.show_nat (count c)) " plays!"))).

Definition diverseInsight (uniqueArtists : nat) : string :=
  String.append "🌈 You explored "
    (String.append (Num.show_nat uniqueArtists) " artists - super diverse taste!").

Definition loyalInsight (uniqueArtists : nat) : string :=
  String.append "🎯 You're loyal to your favorites - "
    (String.append (Num.show_nat uniqueArtists) " artists on repeat!").

Definition lowSkipInsight (skipRate : Z) : string :=
  String.append "✨ Only "
    (String.append (Num.show_Z skipRate) "% skip rate - you know what you like!").

Definition highSkipInsight (skipRate : Z) : string :=
  String.append "⏭️ "
    (String.append (Num.show_Z skipRate) "% skip rate - time to clean those playlists!").

Definition peakInsight (peakListeningHour : Z) : string :=
  String.append "⏰ Peak listening at "
    (String.append (hour12 peakListeningHour) " - your music power hour!").

Definition highEnergyInsight (averageEnergy : Q) : string :=
  String.append "⚡ High-energy vibes - "
    (String.append (Num.show_Z (Num.round (averageEnergy * 100))) "% pure electricity!").

Definition chillInsight (averageEnergy : Q) : string :=
  String.append "😌 Chill mode activated - "
    (String.append (Num.show_Z (Num.round (averageEnergy * 100))) "% relaxed energy").

Definition noRepeatsInsight (uniqueTracks : nat) : string :=
  String.append "🆕 No repeats! "
    (String.append (Num.show_nat uniqueTracks)
       " unique tracks - variety is your style!").

Definition repeatsInsight (repeats : nat) : string :=
  String.append "🔁 "
    (String.append (Num.show_nat repeats) " repeat plays - you love your favorites!").

(** [generateWrappedInsights]: each block pushes at most one sentence, in
    this order. *)
Definition generateWrappedInsights (metrics : DetailedMetrics.t) : list string :=
  let hours := Num.floor (inject_Z (DetailedMetrics.totalListeningTime metrics) / 60) in
  (if (0 <? hours)%Z
   then [jammedInsight hours (DetailedMetrics.totalListeningTime metrics)] else [])
  ++ match DetailedMetrics.topArtists metrics with
     | topArtist :: _ => [topArtistInsight topArtist]
     | [] => []
     end
  ++ (if (50 <? DetailedMetrics.listeningDiversity metrics)%Z
      then [diverseInsight (DetailedMetrics.uniqueArtists metrics)]
      else if (DetailedMetrics.listeningDiversity metrics <? 20)%Z
      then [loyalInsight (DetailedMetrics.uniqueArtists metrics)]
      else [])
  ++ (if (DetailedMetrics.skipRate metrics <? 15)%Z
      then [lowSkipInsight (DetailedMetrics.skipRate metrics)]
      else if (25 <? DetailedMetrics.skipRate metrics)%Z
      then [highSkipInsight (DetailedMetrics.skipRate metrics)]
      else [])
  ++ [peakInsight (peakListeningHour (DetailedMetrics.simulated metrics))]
  ++ (if Num.gtb (averageEnergy (DetailedMetrics.simulated metrics)) (7 # 10)
      then [highEnergyInsight (averageEnergy (DetailedMetrics.simulated metrics))]
      else if Num.ltb (averageEnergy (DetailedMetrics.simulated metrics)) (4 # 10)
      then [chillInsight (averageEnergy (DetailedMetrics.simulated metrics))]
      else [])
  ++ (if (DetailedMetrics.uniqueTracks metrics =? DetailedMetrics.trackCount metrics)%nat
      then [noRepeatsInsight (DetailedMetrics.uniqueTracks metrics)]
      else if Num.ltb (Num.of_nat (DetailedMetrics.uniqueTracks metrics))
                (Num.of_nat (DetailedMetrics.trackCount metrics) / 2)
      then [repeatsInsight
              (DetailedMetrics.trackCount metrics - DetailedMetrics.uniqueTracks metrics)]
      else []).

End metricsEngine.

(** ** The statistics screen ([WrappedScreen]) *)

Module WrappedScreen.

(** The effect that fills the screen: the engine runs on the session's
    tracks, listens and timestamps when there is at least one track. *)
Definition metrics (sim : Simulated) (session : useListeningSession.SessionData)
    : option DetailedMetrics.t :=
  if (0 <? List.length (useListeningSession.tracks session))%nat
  then Some (metricsEngine.calculateDetailedMetrics sim
               (useListeningSession.tracks session)
               (useListeningSession.trackListens session)
               (useListeningSession.startTime session)
               (useListeningSession.endTime session))
  else None.

(** [formatHour], used for the Peak Hour card. *)
Definition formatHour (hour : Z) : string :=
  if (hour =? 0)%Z then "12AM"
  else if (hour <? 12)%Z then String.append (Num.show_Z hour) "AM"
  else if (hour =? 12)%Z then "12PM"
  else String.append (Num.show_Z (hour - 12)) "PM".

End WrappedScreen.

(** ** Listening time from the play history ([spotifyApi.getListeningTime]) *)

Module spotifyApi.

(** An item of the recently-played answer: the time its [played_at] parses to
    ([None] when it does not parse, which gives a time no comparison holds
    for) and the duration of its track. *)
Record PlayedItem := mkPlayed {
  played_at : option Q;
  played_duration_ms : Q
}.

(** What [getRecentlyPlayed] gives: an error, an answer without items, or the
    items. *)
Inductive RecentlyPlayed :=
| fetchFailed
| noItems
| playedItems (items : list PlayedItem).

(** [playedAt >= after]. *)
Definition playedSince (after : Q) (i : PlayedItem) : bool :=
  match played_at i with
  | Some t => Qle_bool after t
  | None => false
  end.

(** [getListeningTime], with [now] the value of [Date.now()] and [data] the
    outcome of the call to [getRecentlyPlayed]. *)
Definition getListeningTime (now : Q) (data : RecentlyPlayed) (daysBack : Q) : Z :=
  let after := now - daysBack * 24 * 60 * 60 * 1000 in
  match data with
  | fetchFailed => 0%Z
  | noItems => Num.round 0
  | playedItems allTracks =>
    Num.round
      (fold_left
         (fun totalMinutes i =>
            if playedSince after i
            then totalMinutes + played_duration_ms i / 1000 / 60
            else totalMinutes)
         allTracks 0)
  end.

End spotifyApi.

(** ** Vocabulary of the statements *)

(** *** Counting and ranking *)

(** Position of the first occurrence of [k] in [l] (its length when there is
    none). *)
Fixpoint firstIndex (k : string) (l : list string) : nat :=
  match l with
  | [] => 0
  | x :: rest => if String.eqb x k then 0 else S (firstIndex k rest)
  end.

(** The order in which an object built from the key sequence [keys] lists its
    properties: array indices first, ascending, then the other keys in the
    order of their first occurrence. *)
Definition enumBefore (keys : list string) (k1 k2 : string) : Prop :=
  match JsObject.arrayIndex k1, JsObject.arrayIndex k2 with
  | Some a, Some b => (a < b)%N
  | Some _, None => True
  | None, Some _ => False
  | None, None => (firstIndex k1 keys < firstIndex k2 keys)%nat
  end.

(** Higher counts first, equal counts in the order [E]. *)
Definition rankedBy (A : Type) (E : Counted A -> Counted A -> Prop)
    (c d : Counted A) : Prop :=
  (count d < count c)%nat \/ (count c = count d /\ E c d).

(** Ranking of a top list: higher counts first, equal counts in the object's
    listing order. *)
Definition ranked (A : Type) (keyOf : A -> string) (keys : list string)
    : Counted A -> Counted A -> Prop :=
  rankedBy (fun c d => enumBefore keys (keyOf (entry c)) (keyOf (entry d))).


(** The first element of [l] whose key is [k]. *)
Definition firstWithKey (A : Type) (keyOf : A -> string) (k : string) (l : list A)
    : option A :=
  find (fun x => String.eqb (keyOf x) k) l.

(** The three counting loops are one loop over a sequence of items, each
    filed under its key. *)
Definition tallyAll (A : Type) (keyOf : A -> string) (items : list A)
    : JsObject.t (Counted A) :=
  fold_left (fun o x => metricsEngine.tally (keyOf x) x o) items (JsObject.empty _).

(** What the counting object holds after the items [items]: one property per
    distinct key, in the order of first occurrence, holding the first item
    filed under the key and the number of items filed under it. *)
Definition tallied (A : Type) (keyOf : A -> string) (items : list A)
    (o : JsObject.t (Counted A)) : Prop :=
  let keys := map keyOf items in
  NoDup (map fst o) /\
  (forall k, In k (map fst o) <-> In k keys) /\
  StronglySorted
    (fun p q => (firstIndex (fst p) keys < firstIndex (fst q) keys)%nat) o /\
  (forall k c, In (k, c) o ->
     keyOf (entry c) = k /\
     count c = count_occ string_dec keys k /\
     firstWithKey keyOf k items = Some (entry c)).

(** A top list: the [n] most frequent keys of the items. *)
Definition topOf (A : Type) (keyOf : A -> string) (n : nat) (items : list A)
    : list (Counted A) :=
  JsArray.slice0 n
    (JsArray.sort (@metricsEngine.byCountDesc A) (JsObject.values (tallyAll keyOf items))).


(** The artists of all tracks, in order, repeats included. *)
Definition allArtists (tracks : list SpotifyTrack) : list Artist :=
  flat_map artists tracks.


(** *** The recommendation analysis *)

(** The listen is of the track with id [k]. *)
Definition sameTrack (k : string) (l : TrackListen.t) : bool :=
  String.eqb (id (TrackListen.track l)) k.

(** What the grouping loop has built from the listens [tl], before the
    averages are filled in: one record per distinct track id, holding the
    listens of that track in order, their number and the number of early
    skips among them. *)
Definition grouped (tl : list TrackListen.t)
    (o : JsObject.t metricsEngine.Analysis.t) : Prop :=
  NoDup (map fst o) /\
  (forall k, In k (map fst o)
             <-> In k (map (fun l => id (TrackListen.track l)) tl)) /\
  (forall k a, In (k, a) o ->
     id (metricsEngine.Analysis.track a) = k /\
     metricsEngine.Analysis.listens a = filter (sameTrack k) tl /\
     metricsEngine.Analysis.totalPlays a
       = List.length (metricsEngine.Analysis.listens a) /\
     metricsEngine.Analysis.earlySkipCount a
       = List.length (filter TrackListen.wasEarlySkip (metricsEngine.Analysis.listens a)) /\
     metricsEngine.Analysis.listens a <> []).

(** The two tests of the recommendation loop. *)
Definition removeCondition (a : metricsEngine.Analysis.t) : Prop :=
  (1 # 2) < Num.of_nat (metricsEngine.Analysis.earlySkipCount a)
            / Num.of_nat (metricsEngine.Analysis.totalPlays a)
  \/ metricsEngine.Analysis.averageCompletion a < 30.

Definition keepCondition (a : metricsEngine.Analysis.t) : Prop :=
  85 < metricsEngine.Analysis.averageCompletion a
  /\ metricsEngine.Analysis.earlySkipCount a = 0%nat.

(** What the loop pushes onto [songsToRemove] and onto [songsToKeep] for one
    analysed track. *)
Definition pushedToRemove (a : metricsEngine.Analysis.t) : list TrackRecommendation.t :=
  match metricsEngine.recommend a with
  | Some r =>
    match TrackRecommendation.action r with
    | remove => [r]
    | _ => []
    end
  | None => []
  end.

Definition pushedToKeep (a : metricsEngine.Analysis.t) : list TrackRecommendation.t :=
  match metricsEngine.recommend a with
  | Some r =>
    match TrackRecommendation.action r with
    | remove => []
    | _ => [r]
    end
  | None => []
  end.

(** *** Sums, means and timestamps *)

(** Sum and arithmetic mean of a figure over a list. *)
Definition sumOf (A : Type) (f : A -> Q) (l : list A) : Q :=
  fold_right (fun x acc => f x + acc) 0 l.


(** A timestamp that fails the truthiness test: [null] or zero. *)
Definition nullOrZero (x : option Q) : Prop :=
  match x with
  | None => True
  | Some q => q == 0
  end.

(** *** Sample data *)

(** No random draw matters below; this is the record handed to the engine in
    the examples. *)
Definition noSimulation : Simulated :=
  mkSimulated [] [] 0 0 0 0.

Definition sampleTrack (i artist : string) : SpotifyTrack :=
  mkTrack i i [mkArtist artist] None 200000.





(** Twenty tracks by four artists. *)
Definition twentyTracks : list SpotifyTrack :=
  repeat (sampleTrack "T1" "a") 5 ++ repeat (sampleTrack "T2" "b") 5
  ++ repeat (sampleTrack "T3" "c") 5 ++ repeat (sampleTrack "T4" "d") 5.


(** ** The example run of the event inference *)

Section InferencerExample.

Import useListeningSession.

Variables (i1 i2 i3 : string).
Variables (n1 n2 n3 : string) (ar1 ar2 ar3 : list Artist) (al1 al2 al3 : option Album).

(** The three tracks of the example: 200 s, 180 s and 150 s long. *)
Definition exT1 : SpotifyTrack := mkTrack i1 n1 ar1 al1 200000.
Definition exT2 : SpotifyTrack := mkTrack i2 n2 ar2 al2 180000.
Definition exT3 : SpotifyTrack := mkTrack i3 n3 ar3 al3 150000.

(** The hook after a start at [c0] and the first [k] of the four snapshots
    (T1 at 5 s, T2 at 3 s, T2 at 3 s, T3 at 0 s), polled at [c1] .. [c4]. *)
Definition exRun (c0 c1 c2 c3 c4 : Q) (h : Hook) (k : nat) : Hook :=
  pollAll
    (firstn k [(c1, snapshot exT1 5000); (c2, snapshot exT2 3000);
               (c3, snapshot exT2 3000); (c4, snapshot exT3 0)])
    (startSession c0 h).

End InferencerExample.

(** ** The polling timer ([startPolling], [stopPolling])

    The timers of the platform are modelled by the list of the interval
    handles that are live; [setInterval] hands out a handle not used before
    (handles are positive, so a handle is truthy) and [clearInterval] takes
    its handle off the list. *)

Module pollTimer.

Record Timers := mkTimers {
  live : list nat;                  (* the intervals that fire *)
  pollIntervalRef : option nat;     (* the handle the hook remembers *)
  nextHandle : nat                  (* the next handle of [setInterval] *)
}.

Definition noTimer : Timers :=
  {| live := []; pollIntervalRef := None; nextHandle := 1 |}.

Definition clearInterval (i : nat) (l : list nat) : list nat :=
  filter (fun j => negb (j =? i)%nat) l.

(** [startPolling]: an interval the hook remembers is cleared first. *)
Definition startPolling (t : Timers) : Timers :=
  let live1 :=
    match pollIntervalRef t with
    | Some i => if (0 <? i)%nat then clearInterval i (live t) else live t
    | None => live t
    end in
  {| live := live1 ++ [nextHandle t];
     pollIntervalRef := Some (nextHandle t);
     nextHandle := S (nextHandle t) |}.

(** [stopPolling]. *)
Definition stopPolling (t : Timers) : Timers :=
  match pollIntervalRef t with
  | Some i =>
    if (0 <? i)%nat
    then {| live := clearInterval i (live t);
            pollIntervalRef := None;
            nextHandle := nextHandle t |}
    else t
  | None => t
  end.

(** The timer states that calls of the two functions produce, in any
    order. *)
Inductive polled : Timers -> Prop :=
| polled_none : polled noTimer
| polled_start : forall t, polled t -> polled (startPolling t)
| polled_stop : forall t, polled t -> polled (stopPolling t).

End pollTimer.

(** ** The access token ([useSpotifyAuth]) *)

Module useSpotifyAuth.

Record AuthState := mkAuth {
  accessToken : option string;
  refreshToken : option string;
  expiresAt : option Q
}.

(** [getAccessToken], with [now] the value of [Date.now()] and [refreshed]
    what [refreshAccessToken] would return: the token is refreshed when an
    expiry time is recorded and reached. *)
Definition getAccessToken (now : Q) (refreshed : option string) (a : AuthState)
    : option string :=
  match expiresAt a with
  | Some e => if Num.truthy e && Qle_bool e now then refreshed else accessToken a
  | None => accessToken a
  end.

(** [isTokenExpired]. *)
Definition isTokenExpired (now : Q) (a : AuthState) : bool :=
  match expiresAt a with
  | Some e => if negb (Num.truthy e) then true else Qle_bool e now
  | None => true
  end.

End useSpotifyAuth.

(** ** Vocabulary of the further properties *)

(** No two neighbours of the list are equal. *)
Fixpoint adjacentDistinct (l : list string) : Prop :=
  match l with
  | x :: rest =>
    match rest with
    | y :: _ => x <> y /\ adjacentDistinct rest
    | [] => True
    end
  | [] => True
  end.

(** The last element of a list. *)
Fixpoint lastOf (l : list string) : option string :=
  match l with
  | [] => None
  | x :: rest =>
    match lastOf rest with
    | Some y => Some y
    | None => Some x
    end
  end.

(** The track ids of a list of listens, in order. *)
Definition listenIds (ls : list TrackListen.t) : list string :=
  map (fun l => id (TrackListen.track l)) ls.

(** The tracks of a list without those whose id occurred before. *)
Definition firstById (l : list SpotifyTrack) : list SpotifyTrack :=
  fold_left
    (fun acc t =>
       if existsb (fun t' => String.eqb (id t') (id t)) acc then acc else acc ++ [t])
    l [].

(** The length of a track in minutes. *)
Definition minutesOf (t : SpotifyTrack) : Q := duration_ms t / 1000 / 60.

(** The fields of a listen record fit together: the total is the track's
    duration in seconds, the flags and the completion are those of the
    listened duration. *)
Definition recordedWell (l : TrackListen.t) : Prop :=
  TrackListen.totalDuration l = duration_ms (TrackListen.track l) / 1000 /\
  TrackListen.wasEarlySkip l = Num.ltb (TrackListen.listenDuration l) 10 /\
  TrackListen.wasSkipped l
    = Num.ltb (TrackListen.listenDuration l) (TrackListen.totalDuration l - 5) /\
  TrackListen.completionRate l
    = TrackListen.listenDuration l / TrackListen.totalDuration l * 100.

(** What the hook keeps true of its session and refs. *)
Definition sessionInvariant (h : useListeningSession.Hook) : Prop :=
  let s := useListeningSession.session h in
  let ls := useListeningSession.trackListens s in
  adjacentDistinct (listenIds ls) /\
  (useListeningSession.isActive s = true ->
   useListeningSession.lastTrackIdRef h = lastOf (listenIds ls)) /\
  useListeningSession.tracks s = firstById (map TrackListen.track ls) /\
  useListeningSession.totalDuration s
    == sumOf (fun l => minutesOf (TrackListen.track l)) ls /\
  Forall recordedWell ls.

(** A session of two cycles: T1 found 5 s in, then T2 found 3 s in. *)
Definition twoCycles : useListeningSession.Hook :=
  exRun "T1" "T2" "T3" "a" "b" "c" [] [] [] None None None 1 2 3 4 5
    useListeningSession.initial 2.

(** The same on a device with its store. *)
Definition twoCyclesStored : storedSession.Device :=
  storedSession.pollCurrentlyPlaying 3
    (useListeningSession.snapshot (exT2 "T2" "b" [] None) 3000)
    (storedSession.pollCurrentlyPlaying 2
       (useListeningSession.snapshot (exT1 "T1" "a" [] None) 5000)
       (storedSession.startSession 1 storedSession.freshInstall)).

(** * Properties *)

Unset Implicit Arguments.

(** ** Numbers *)

Lemma ltb_lt (x y : Q) : Num.ltb x y = true <-> x < y.
Proof.
  unfold Num.ltb. rewrite negb_true_iff.
  split; intro H.
  - apply Qnot_le_lt. intro Hle. apply Qle_bool_iff in Hle. congruence.
  - destruct (Qle_bool y x) eqn:E; [|reflexivity].
    apply Qle_bool_iff in E. exfalso. apply (Qlt_not_le _ _ H E).
Qed.

Lemma ltb_ge (x y : Q) : Num.ltb x y = false <-> y <= x.
Proof.
  unfold Num.ltb. rewrite negb_false_iff. apply Qle_bool_iff.
Qed.

Lemma gtb_gt (x y : Q) : Num.gtb x y = true <-> y < x.
Proof. unfold Num.gtb. apply ltb_lt. Qed.

Lemma truthy_false (x : Q) : Num.truthy x = false -> x == 0.
Proof.
  unfold Num.truthy. rewrite negb_false_iff. apply Qeq_bool_eq.
Qed.

Lemma truthy_true (x : Q) : ~ x == 0 -> Num.truthy x = true.
Proof.
  unfold Num.truthy. intro H. rewrite negb_true_iff.
  destruct (Qeq_bool x 0) eqn:E; [|reflexivity].
  apply Qeq_bool_eq in E. contradiction.
Qed.

(** ** The session store and the event inference *)

Section Session.

Import useListeningSession.

Lemma progressMs_some (t : option SpotifyTrack) (p : Q) :
  progressMs {| item := t; progress_ms := Some p |} == p.
Proof.
  unfold progressMs; simpl.
  destruct (Num.truthy p) eqn:E; [reflexivity|].
  symmetry. now apply truthy_false.
Qed.

Lemma differs_true_iff (tid : string) (last : option string) :
  differs tid last = true <-> last <> Some tid.
Proof.
  destruct last as [l|]; simpl.
  - rewrite negb_true_iff, String.eqb_neq. split; congruence.
  - split; [discriminate|reflexivity].
Qed.

Lemma existsb_id_In (tid : string) (ts : list SpotifyTrack) :
  existsb (fun t' => String.eqb (id t') tid) ts = true <-> In tid (map id ts).
Proof.
  rewrite existsb_exists, in_map_iff.
  split; intros [x [H1 H2]].
  - exists x. apply String.eqb_eq in H2. auto.
  - exists x. rewrite H1, String.eqb_refl. auto.
Qed.

Lemma append_inactive (t : SpotifyTrack) (l : TrackListen.t) (s : SessionData) :
  isActive s = false -> append t l s = s.
Proof. intro H. unfold append. now rewrite H. Qed.

Lemma append_trackListens (t : SpotifyTrack) (l : TrackListen.t) (s : SessionData) :
  isActive s = true -> trackListens (append t l s) = trackListens s ++ [l].
Proof. intro H. unfold append. now rewrite H. Qed.

Lemma append_tracks_known (t : SpotifyTrack) (l : TrackListen.t) (s : SessionData) :
  isActive s = true -> In (id t) (map id (tracks s)) ->
  tracks (append t l s) = tracks s.
Proof.
  intros H Hin. unfold append. rewrite H; simpl.
  apply existsb_id_In in Hin. now rewrite Hin.
Qed.

Lemma append_tracks_new (t : SpotifyTrack) (l : TrackListen.t) (s : SessionData) :
  isActive s = true -> ~ In (id t) (map id (tracks s)) ->
  tracks (append t l s) = tracks s ++ [t].
Proof.
  intros H Hin. unfold append. rewrite H; simpl.
  destruct (existsb _ _) eqn:E; [|reflexivity].
  apply existsb_id_In in E. contradiction.
Qed.

Lemma append_nodup (t : SpotifyTrack) (l : TrackListen.t) (s : SessionData) :
  NoDup (map id (tracks s)) -> NoDup (map id (tracks (append t l s))).
Proof.
  intro Hnd. destruct (isActive s) eqn:Ha.
  - destruct (in_dec string_dec (id t) (map id (tracks s))) as [Hin|Hin].
    + now rewrite append_tracks_known.
    + rewrite append_tracks_new by assumption.
      rewrite map_app; simpl.
      apply NoDup_app; [assumption | repeat constructor; intros [] | ].
      intros x Hx [Hx'|[]]. subst. contradiction.
  - now rewrite append_inactive.
Qed.

Lemma reachable_nodup (s : SessionData) :
  reachable s -> NoDup (map id (tracks s)).
Proof.
  induction 1; simpl; try constructor; auto using append_nodup.
Qed.

(** Every observation cycle stays within the reachable sessions. *)
Lemma poll_reachable (now : Q) (o : Observation) (h : Hook) :
  reachable (session h) -> reachable (session (pollCurrentlyPlaying now o h)).
Proof.
  intro H. unfold pollCurrentlyPlaying.
  destruct (negb (tokenAvailable o)); [assumption|].
  destruct (currentlyPlaying o) as [cp|]; [|assumption].
  destruct (item cp) as [t|]; [|assumption].
  destruct (differs _ _); simpl; [|assumption].
  now apply reach_append.
Qed.

End Session.

(** C1, as the code behaves: after a start, the snapshots (T1, 5 s), (T2, 3 s),
    (T2, 3 s), (T3, 0 s) leave exactly three listen records.  The record of T1
    (listenDuration 5, early skip) is created by the first snapshot, that of
    T2 (listenDuration 3, early skip) by the change from T1 to T2, the repeated
    T2 snapshot creates none, and the change from T2 to T3 creates a record of
    T3 (listenDuration 0, early skip). *)
Theorem inferencer_example_three_records :
  forall (i1 i2 i3 n1 n2 n3 : string) (ar1 ar2 ar3 : list Artist)
         (al1 al2 al3 : option Album) (c0 c1 c2 c3 c4 : Q)
         (h : useListeningSession.Hook),
    i1 <> i2 -> i2 <> i3 ->
    let t1 := exT1 i1 n1 ar1 al1 in
    let t2 := exT2 i2 n2 ar2 al2 in
    let t3 := exT3 i3 n3 ar3 al3 in
    let listensAfter k :=
      useListeningSession.trackListens
        (useListeningSession.session
           (exRun i1 i2 i3 n1 n2 n3 ar1 ar2 ar3 al1 al2 al3 c0 c1 c2 c3 c4 h k)) in
    exists r1 r2 r3 : TrackListen.t,
      listensAfter 0%nat = [] /\
      listensAfter 1%nat = [r1] /\
      listensAfter 2%nat = [r1; r2] /\
      listensAfter 3%nat = [r1; r2] /\
      listensAfter 4%nat = [r1; r2; r3] /\
      (TrackListen.track r1 = t1 /\ TrackListen.listenDuration r1 == 5 /\
       TrackListen.wasEarlySkip r1 = true) /\
      (TrackListen.track r2 = t2 /\ TrackListen.listenDuration r2 == 3 /\
       TrackListen.wasEarlySkip r2 = true) /\
      (TrackListen.track r3 = t3 /\ TrackListen.listenDuration r3 == 0 /\
       TrackListen.wasEarlySkip r3 = true).
Proof.
  intros i1 i2 i3 n1 n2 n3 ar1 ar2 ar3 al1 al2 al3 c0 c1 c2 c3 c4 h H12 H23.
  assert (E21 : String.eqb i2 i1 = false) by (apply String.eqb_neq; congruence).
  assert (E32 : String.eqb i3 i2 = false) by (apply String.eqb_neq; congruence).
  cbv zeta.
  eexists _, _, _.
  unfold exRun, useListeningSession.pollAll, useListeningSession.pollCurrentlyPlaying,
    useListeningSession.snapshot, useListeningSession.startSession,
    useListeningSession.append, useListeningSession.differs; simpl.
  rewrite E21; simpl. rewrite String.eqb_refl; simpl. rewrite E32; simpl.
  repeat split; reflexivity.
Qed.

(** The example at the ids T1, T2, T3. *)
Lemma inferencer_example_three_records_witness :
  exists r1 r2 r3 : TrackListen.t,
    useListeningSession.trackListens
      (useListeningSession.session
         (exRun "T1" "T2" "T3" "a" "b" "c" [] [] [] None None None 0 1 2 3 4
            useListeningSession.initial 4)) = [r1; r2; r3] /\
    TrackListen.listenDuration r3 == 0.
Proof.
  destruct (inferencer_example_three_records
              "T1"%string "T2"%string "T3"%string "a"%string "b"%string "c"%string
              [] [] [] None None None 0 1 2 3 4 useListeningSession.initial)
    as [r1 [r2 [r3 H]]]; [discriminate | discriminate |].
  exists r1, r2, r3. split; apply H.
Defined.

(** C1, as the claim words it, fails: the run of the example does not end with
    two records. *)
Lemma inferencer_example_not_two_records :
  List.length
    (useListeningSession.trackListens
       (useListeningSession.session
          (exRun "T1" "T2" "T3" "a" "b" "c" [] [] [] None None None 0 1 2 3 4
             useListeningSession.initial 4))) <> 2%nat.
Proof. vm_compute. discriminate. Qed.



(** C3: on a session that is not active the append changes nothing: the
    session it returns is the one it was given, field for field, and so an
    observation cycle leaves a stopped session as it is whatever it observes. *)
Theorem append_inactive_is_noop :
  forall (t : SpotifyTrack) (l : TrackListen.t) (s : useListeningSession.SessionData),
    useListeningSession.isActive s = false ->
    let s' := useListeningSession.append t l s in
    s' = s /\
    useListeningSession.tracks s' = useListeningSession.tracks s /\
    useListeningSession.trackListens s' = useListeningSession.trackListens s /\
    useListeningSession.totalDuration s' = useListeningSession.totalDuration s /\
    useListeningSession.isActive s' = false /\
    useListeningSession.startTime s' = useListeningSession.startTime s /\
    useListeningSession.endTime s' = useListeningSession.endTime s /\
    (forall (now : Q) (o : useListeningSession.Observation)
            (h : useListeningSession.Hook),
        useListeningSession.session h = s ->
        useListeningSession.session
          (useListeningSession.pollCurrentlyPlaying now o h) = s).
Proof.
  intros t l s H s'. unfold s'.
  rewrite (append_inactive t l s H).
  repeat split; try assumption.
  intros now o h Hs. unfold useListeningSession.pollCurrentlyPlaying.
  destruct (negb (useListeningSession.tokenAvailable o)); [assumption|].
  destruct (useListeningSession.currentlyPlaying o) as [cp|]; [|assumption].
  destruct (useListeningSession.item cp) as [t0|]; [|assumption].
  destruct (useListeningSession.differs _ _); simpl; [|assumption].
  rewrite Hs. now apply append_inactive.
Qed.

(** A poll result delivered after a stop: the stopped session keeps its one
    record. *)
Lemma append_inactive_is_noop_witness :
  let h :=
    useListeningSession.stopSession 9
      (useListeningSession.pollCurrentlyPlaying 1
         (useListeningSession.snapshot (exT1 "T1" "a" [] None) 5000)
         (useListeningSession.startSession 0 useListeningSession.initial)) in
  useListeningSession.append (exT2 "T2" "b" [] None)
    (useListeningSession.mkTrackListen 10 (exT2 "T2" "b" [] None) 3 180)
    (useListeningSession.session h)
  = useListeningSession.session h.
Proof.
  intro h.
  apply (append_inactive_is_noop (exT2 "T2"%string "b"%string [] None)
           (useListeningSession.mkTrackListen 10
              (exT2 "T2"%string "b"%string [] None) 3 180)
           (useListeningSession.session h) eq_refl).
Defined.

(** C4: on an active session the append leaves [tracks] as it is when the
    track's id is already there and adds the track once, at the end, when it
    is not, and it adds exactly the one record to [trackListens].  Hence no
    session reachable from the empty one by start, stop, clear and append has
    two tracks with one id, while some reachable session has two listen
    records of one track. *)
Theorem append_keeps_track_ids_distinct :
  (forall (t : SpotifyTrack) (l : TrackListen.t) (s : useListeningSession.SessionData),
      useListeningSession.isActive s = true ->
      (In (id t) (map id (useListeningSession.tracks s)) ->
       useListeningSession.tracks (useListeningSession.append t l s)
         = useListeningSession.tracks s) /\
      (~ In (id t) (map id (useListeningSession.tracks s)) ->
       useListeningSession.tracks (useListeningSession.append t l s)
         = useListeningSession.tracks s ++ [t]) /\
      useListeningSession.trackListens (useListeningSession.append t l s)
        = useListeningSession.trackListens s ++ [l]) /\
  (forall s : useListeningSession.SessionData,
      useListeningSession.reachable s ->
      NoDup (map id (useListeningSession.tracks s))) /\
  (exists s : useListeningSession.SessionData,
      useListeningSession.reachable s /\
      ~ NoDup (map (fun l => id (TrackListen.track l))
                 (useListeningSession.trackListens s))).
Proof.
  split; [|split].
  - intros t l s Ha. repeat split.
    + now apply append_tracks_known.
    + now apply append_tracks_new.
    + now apply append_trackListens.
  - apply reachable_nodup.
  - pose (t := exT1 "T1"%string "a"%string [] None).
    pose (l := useListeningSession.mkTrackListen 1 t 5 200).
    exists (useListeningSession.append t l
              (useListeningSession.append t l
                 (useListeningSession.session
                    (useListeningSession.startSession 0 useListeningSession.initial)))).
    split.
    + do 2 apply useListeningSession.reach_append.
      apply useListeningSession.reach_start. apply useListeningSession.reach_empty.
    + simpl. intro Hnd. inversion Hnd as [|x xs Hnotin _]. apply Hnotin. now left.
Qed.

(** The same track appended twice to a fresh session: one track, two
    records. *)
Lemma append_keeps_track_ids_distinct_witness :
  let t := exT1 "T1" "a" [] None in
  let l := useListeningSession.mkTrackListen 1 t 5 200 in
  let s1 :=
    useListeningSession.append t l
      (useListeningSession.session
         (useListeningSession.startSession 0 useListeningSession.initial)) in
  let s2 := useListeningSession.append t l s1 in
  useListeningSession.tracks s2 = [t] /\
  useListeningSession.trackListens s2 = [l; l].
Proof.
  intros t l s1 s2.
  destruct append_keeps_track_ids_distinct as [H _].
  destruct (H t l s1 eq_refl) as [Hk [_ Hl]].
  split.
  - unfold s2. rewrite Hk; [reflexivity | now left].
  - unfold s2. rewrite Hl. reflexivity.
Defined.

(** ** Dictionaries *)

Section ObjectFacts.

Context {V : Type}.

Implicit Types (o : JsObject.t V) (k : string) (v : V).

Lemma get_None_iff o k : JsObject.get k o = None <-> ~ In k (map fst o).
Proof.
  induction o as [|[k' v'] o IH]; simpl.
  - tauto.
  - destruct (String.eqb k' k) eqn:E.
    + apply String.eqb_eq in E. split; [discriminate | intro H; exfalso; auto].
    + apply String.eqb_neq in E. rewrite IH. tauto.
Qed.

Lemma get_Some_In o k v : JsObject.get k o = Some v -> In (k, v) o.
Proof.
  induction o as [|[k' v'] o IH]; simpl; [discriminate|].
  destruct (String.eqb k' k) eqn:E.
  - apply String.eqb_eq in E. intro H. inversion H. subst. now left.
  - auto.
Qed.

Lemma update_keys (f : V -> V) k o :
  map fst (JsObject.update f k o) = map fst o.
Proof.
  induction o as [|[k' v'] o IH]; simpl; [reflexivity|].
  destruct (String.eqb k' k); simpl; congruence.
Qed.

Lemma update_absent (f : V -> V) k o :
  ~ In k (map fst o) -> JsObject.update f k o = o.
Proof.
  induction o as [|[k' v'] o IH]; simpl; [reflexivity|].
  intro H. destruct (String.eqb k' k) eqn:E.
  - apply String.eqb_eq in E. exfalso. auto.
  - f_equal. apply IH. tauto.
Qed.

Lemma update_last (f : V -> V) k v o :
  ~ In k (map fst o) ->
  JsObject.update f k (o ++ [(k, v)]) = o ++ [(k, f v)].
Proof.
  induction o as [|[k' v'] o IH]; simpl.
  - now rewrite String.eqb_refl.
  - intro H. destruct (String.eqb k' k) eqn:E.
    + apply String.eqb_eq in E. exfalso. auto.
    + f_equal. apply IH. tauto.
Qed.

(** With distinct keys, an update is a map over the properties. *)
Lemma update_map (f : V -> V) k o :
  NoDup (map fst o) ->
  JsObject.update f k o
  = map (fun p => if String.eqb (fst p) k then (fst p, f (snd p)) else p) o.
Proof.
  induction o as [|[k' v'] o IH]; simpl; [reflexivity|].
  intro H. inversion H as [|x xs Hnotin Hnd]; subst.
  destruct (String.eqb k' k) eqn:E.
  - f_equal. apply String.eqb_eq in E. subst k'.
    rewrite <- (update_absent f k o Hnotin) at 1.
    now apply IH.
  - f_equal. now apply IH.
Qed.

Lemma arrayIndex_canonical (s : string) (n : N) :
  JsObject.arrayIndex s = Some n -> s = JsObject.canonical n.
Proof.
  unfold JsObject.arrayIndex.
  destruct (JsObject.digits s 0) as [m|]; [|discriminate].
  destruct ((m <=? 4294967294)%N && String.eqb (JsObject.canonical m) s) eqn:E;
    [|discriminate].
  intro H. inversion H; subst.
  apply andb_true_iff in E. destruct E as [_ E].
  apply String.eqb_eq in E. congruence.
Qed.

Lemma arrayIndex_inj (s1 s2 : string) (n : N) :
  JsObject.arrayIndex s1 = Some n -> JsObject.arrayIndex s2 = Some n -> s1 = s2.
Proof.
  intros H1 H2. apply arrayIndex_canonical in H1, H2. congruence.
Qed.

Lemma In_insertIndexed (n : N) (p : string * V) (l : list (N * (string * V)))
    (x : N * (string * V)) :
  In x (JsObject.insertIndexed n p l) <-> x = (n, p) \/ In x l.
Proof.
  induction l as [|[m q] l IH]; simpl.
  - intuition.
  - destruct (n <=? m)%N; simpl; [intuition|].
    rewrite IH. intuition.
Qed.

Lemma In_indexed o (n : N) (p : string * V) :
  In (n, p) (JsObject.indexed o) <-> In p o /\ JsObject.arrayIndex (fst p) = Some n.
Proof.
  induction o as [|[k v] o IH]; simpl.
  - tauto.
  - destruct (JsObject.arrayIndex k) as [m|] eqn:E.
    + rewrite In_insertIndexed, IH. split.
      * intros [H|[H1 H2]]; [inversion H; subst; auto | auto].
      * intros [[H|H] H']; [subst p; simpl in H'; left; congruence | auto].
    + rewrite IH. split.
      * intros [H1 H2]; auto.
      * intros [[H|H] H']; [subst p; simpl in H'; congruence | auto].
Qed.

Lemma insertIndexed_perm (n : N) (p : string * V) (l : list (N * (string * V))) :
  Permutation (JsObject.insertIndexed n p l) ((n, p) :: l).
Proof.
  induction l as [|[m q] l IH]; simpl; [reflexivity|].
  destruct (n <=? m)%N; [reflexivity|].
  rewrite IH. apply perm_swap.
Qed.

(** Enumeration lists every property once. *)
Lemma entries_perm o : Permutation (JsObject.entries o) o.
Proof.
  unfold JsObject.entries.
  induction o as [|[k v] o IH]; simpl; [reflexivity|].
  unfold JsObject.named in *; simpl.
  destruct (JsObject.arrayIndex k) as [m|] eqn:E; simpl.
  - rewrite (Permutation_map snd (insertIndexed_perm m (k, v) (JsObject.indexed o))).
    simpl. now constructor.
  - rewrite <- Permutation_middle. now constructor.
Qed.

Lemma insertIndexed_sorted (n : N) (p : string * V) (l : list (N * (string * V))) :
  StronglySorted (fun a b => (fst a < fst b)%N) l ->
  (forall q, In q l -> fst q <> n) ->
  StronglySorted (fun a b => (fst a < fst b)%N) (JsObject.insertIndexed n p l).
Proof.
  induction l as [|[m q] l IH]; simpl; intros Hs Hne.
  - repeat constructor.
  - inversion Hs as [|x xs Hs' Hall]; subst.
    destruct (n <=? m)%N eqn:E.
    + apply N.leb_le in E.
      assert (Hlt : (n < m)%N).
      { specialize (Hne (m, q) (or_introl eq_refl)). simpl in Hne. lia. }
      constructor; [assumption|].
      constructor; [exact Hlt|].
      rewrite Forall_forall in *. intros y Hy. specialize (Hall y Hy).
      simpl in *. lia.
    + apply N.leb_gt in E.
      constructor.
      * apply IH; [assumption | intros y Hy; apply Hne; now right].
      * rewrite Forall_forall in *. intros y Hy.
        apply In_insertIndexed in Hy. destruct Hy as [Hy|Hy].
        -- subst y. exact E.
        -- now apply Hall.
Qed.

Lemma indexed_sorted o :
  NoDup (map fst o) ->
  StronglySorted (fun a b => (fst a < fst b)%N) (JsObject.indexed o).
Proof.
  induction o as [|[k v] o IH]; simpl; intro Hnd; [constructor|].
  inversion Hnd as [|x xs Hnotin Hnd']; subst.
  destruct (JsObject.arrayIndex k) as [n|] eqn:E; [|auto].
  apply insertIndexed_sorted; [auto|].
  intros [m [k' v']] Hin Hm. simpl in Hm. subst m.
  apply In_indexed in Hin. destruct Hin as [Hin Hidx]. simpl in Hidx.
  assert (k' = k) by (eapply arrayIndex_inj; eassumption). subst k'.
  apply Hnotin. apply (in_map fst) in Hin. exact Hin.
Qed.

End ObjectFacts.

(** ** Sorted lists *)

Section SortedFacts.

Context {A B : Type}.

Lemma SSorted_app (R : A -> A -> Prop) (l1 l2 : list A) :
  StronglySorted R l1 -> StronglySorted R l2 ->
  (forall x y, In x l1 -> In y l2 -> R x y) ->
  StronglySorted R (l1 ++ l2).
Proof.
  induction l1 as [|a l1 IH]; simpl; intros H1 H2 Hc; [assumption|].
  inversion H1 as [|x xs Hs Hall]; subst.
  constructor.
  - apply IH; auto.
  - rewrite Forall_forall in *. intros y Hy.
    apply in_app_iff in Hy. destruct Hy; auto.
Qed.

Lemma SSorted_map (f : A -> B) (R : B -> B -> Prop) (l : list A) :
  StronglySorted (fun x y => R (f x) (f y)) l -> StronglySorted R (map f l).
Proof.
  induction 1 as [|a l Hs IH Hall]; simpl; constructor; [assumption|].
  rewrite Forall_forall in *. intros y Hy.
  apply in_map_iff in Hy. destruct Hy as [x [Hx Hin]]. subst. auto.
Qed.

Lemma SSorted_filter (p : A -> bool) (R : A -> A -> Prop) (l : list A) :
  StronglySorted R l -> StronglySorted R (filter p l).
Proof.
  induction 1 as [|a l Hs IH Hall]; simpl; [constructor|].
  destruct (p a); [|assumption].
  constructor; [assumption|].
  rewrite Forall_forall in *. intros y Hy.
  apply filter_In in Hy. apply Hall, Hy.
Qed.

Lemma SSorted_impl_In (R R' : A -> A -> Prop) (l : list A) :
  (forall x y, In x l -> In y l -> R x y -> R' x y) ->
  StronglySorted R l -> StronglySorted R' l.
Proof.
  intros Himp Hs. induction Hs as [|a l Hs IH Hall]; constructor.
  - apply IH. intros x y Hx Hy. apply Himp; now right.
  - rewrite Forall_forall in *. intros y Hy.
    apply Himp; [now left | now right | auto].
Qed.

End SortedFacts.

Section SortFacts.

Context {A : Type}.

Local Abbreviation sortByCount := (JsArray.sort (@metricsEngine.byCountDesc A)).
Local Abbreviation insertByCount := (JsArray.insert (@metricsEngine.byCountDesc A)).

Lemma insert_perm (x : Counted A) (l : list (Counted A)) :
  Permutation (insertByCount x l) (x :: l).
Proof.
  induction l as [|y l IH]; simpl; [reflexivity|].
  destruct (_ <=? 0)%Z; [reflexivity|].
  rewrite IH. apply perm_swap.
Qed.

Lemma sort_perm (l : list (Counted A)) : Permutation (sortByCount l) l.
Proof.
  induction l as [|x l IH]; simpl; [reflexivity|].
  rewrite insert_perm. now constructor.
Qed.

Variable E : Counted A -> Counted A -> Prop.

Local Abbreviation rk := (rankedBy E).

Lemma insert_ranked (x : Counted A) (s : list (Counted A)) :
  StronglySorted rk s -> Forall (E x) s -> StronglySorted rk (insertByCount x s).
Proof.
  induction s as [|y s IH]; simpl; intros Hs HE.
  - repeat constructor.
  - inversion Hs as [|y' s' Hs' Hall]; subst.
    inversion HE as [|y' s' HEy HEs]; subst.
    unfold metricsEngine.byCountDesc at 1.
    destruct (_ <=? 0)%Z eqn:C.
    + apply Z.leb_le in C.
      constructor; [assumption|].
      constructor.
      * unfold rankedBy. destruct (Nat.eq_dec (count x) (count y)); [right; auto | left; lia].
      * rewrite Forall_forall in *. intros z Hz.
        specialize (Hall z Hz). specialize (HEs z Hz).
        unfold rankedBy in *.
        destruct (Nat.eq_dec (count x) (count z)); [right; auto | left; lia].
    + apply Z.leb_gt in C.
      constructor; [now apply IH|].
      rewrite Forall_forall in *. intros z Hz.
      apply (Permutation_in _ (insert_perm x s)) in Hz.
      destruct Hz as [Hz|Hz]; [subst z; left; lia | now apply Hall].
Qed.

(** The stable sort turns the listing order [E] into the ranking: sorted by
    descending count, and by [E] among equal counts. *)
Lemma sort_ranked (l : list (Counted A)) :
  StronglySorted E l -> StronglySorted rk (sortByCount l).
Proof.
  induction 1 as [|x l Hs IH Hall]; simpl; [constructor|].
  apply insert_ranked; [assumption|].
  rewrite Forall_forall in *. intros z Hz.
  apply Hall. now apply (Permutation_in _ (sort_perm l)).
Qed.

End SortFacts.

(** ** The counting loops *)

Lemma firstIndex_app_in (k : string) (l l' : list string) :
  In k l -> firstIndex k (l ++ l') = firstIndex k l.
Proof.
  induction l as [|x l IH]; simpl; [tauto|].
  intro H. destruct (String.eqb x k) eqn:E; [reflexivity|].
  apply String.eqb_neq in E. f_equal. apply IH. tauto.
Qed.

Lemma firstIndex_lt (k : string) (l : list string) :
  In k l -> (firstIndex k l < List.length l)%nat.
Proof.
  induction l as [|x l IH]; simpl; [tauto|].
  intro H. destruct (String.eqb x k) eqn:E; [lia|].
  apply String.eqb_neq in E. apply -> Nat.succ_lt_mono. apply IH. tauto.
Qed.

Lemma firstIndex_fresh (k : string) (l : list string) :
  ~ In k l -> firstIndex k (l ++ [k]) = List.length l.
Proof.
  induction l as [|x l IH]; simpl.
  - now rewrite String.eqb_refl.
  - intro H. destruct (String.eqb x k) eqn:E.
    + apply String.eqb_eq in E. exfalso. auto.
    + f_equal. apply IH. tauto.
Qed.

Section TallyFacts.

Context {A : Type}.
Variable keyOf : A -> string.

Lemma firstWithKey_app_found (k : string) (l l' : list A) (x : A) :
  firstWithKey keyOf k l = Some x -> firstWithKey keyOf k (l ++ l') = Some x.
Proof.
  unfold firstWithKey. induction l as [|y l IH]; simpl; [discriminate|].
  destruct (String.eqb (keyOf y) k); auto.
Qed.

Lemma firstWithKey_app_fresh (k : string) (l l' : list A) :
  ~ In k (map keyOf l) ->
  firstWithKey keyOf k (l ++ l') = firstWithKey keyOf k l'.
Proof.
  unfold firstWithKey. induction l as [|y l IH]; simpl; [reflexivity|].
  intro H. destruct (String.eqb (keyOf y) k) eqn:E.
  - apply String.eqb_eq in E. exfalso. auto.
  - apply IH. tauto.
Qed.

Lemma tallyAll_snoc (items : list A) (x : A) :
  tallyAll keyOf (items ++ [x])
  = metricsEngine.tally (keyOf x) x (tallyAll keyOf items).
Proof. unfold tallyAll. now rewrite fold_left_app. Qed.

Lemma tallied_fresh (items : list A) (x : A) (o : JsObject.t (Counted A)) :
  tallied keyOf items o -> JsObject.get (keyOf x) o = None ->
  tallied keyOf (items ++ [x]) (metricsEngine.tally (keyOf x) x o).
Proof.
  intros (Hnd & Hkeys & Hs & Hc) Hget.
  apply get_None_iff in Hget.
  assert (Hfresh : ~ In (keyOf x) (map keyOf items)) by (now rewrite <- Hkeys).
  unfold metricsEngine.tally.
  rewrite (proj2 (get_None_iff o (keyOf x)) Hget).
  unfold JsObject.add. rewrite update_last by assumption; simpl.
  unfold tallied. rewrite !map_app; simpl.
  split; [|split; [|split]].
  - apply NoDup_app; [assumption | repeat constructor; intros [] |].
    intros k Hk [Hk'|[]]. subst. contradiction.
  - intro k. rewrite !in_app_iff, Hkeys. tauto.
  - apply SSorted_app.
    + apply SSorted_impl_In with (2 := Hs).
      intros p q Hp Hq.
      rewrite !firstIndex_app_in; [auto | |];
        apply Hkeys; now apply in_map.
    + repeat constructor.
    + intros p q Hp [Hq|[]]. subst q; simpl.
      assert (Hpk : In (fst p) (map keyOf items)) by (apply Hkeys; now apply in_map).
      rewrite firstIndex_app_in by assumption.
      rewrite firstIndex_fresh by assumption.
      rewrite length_map. rewrite <- (length_map keyOf items).
      now apply firstIndex_lt.
  - intros k c Hin. apply in_app_iff in Hin. destruct Hin as [Hin|[Hin|[]]].
    + assert (Hne : keyOf x <> k).
      { intro Heq. apply Hget. rewrite Heq. apply (in_map fst) in Hin. exact Hin. }
      destruct (Hc k c Hin) as (H1 & H2 & H3).
      rewrite count_occ_app; simpl.
      destruct (string_dec (keyOf x) k); [contradiction|].
      repeat split; [assumption | lia | now apply firstWithKey_app_found].
    + inversion Hin; subst; simpl.
      rewrite count_occ_app; simpl.
      destruct (string_dec (keyOf x) (keyOf x)); [|congruence].
      rewrite (proj1 (count_occ_not_In string_dec _ _) Hfresh).
      repeat split.
      rewrite firstWithKey_app_fresh by assumption.
      unfold firstWithKey; simpl. now rewrite String.eqb_refl.
Qed.

Lemma tallied_known (items : list A) (x : A) (o : JsObject.t (Counted A))
    (c0 : Counted A) :
  tallied keyOf items o -> JsObject.get (keyOf x) o = Some c0 ->
  tallied keyOf (items ++ [x]) (metricsEngine.tally (keyOf x) x o).
Proof.
  intros (Hnd & Hkeys & Hs & Hc) Hget.
  assert (Hin0 : In (keyOf x) (map keyOf items)).
  { apply Hkeys. apply get_Some_In in Hget. apply (in_map fst) in Hget. exact Hget. }
  unfold metricsEngine.tally. rewrite Hget.
  unfold tallied. rewrite update_keys, map_app; simpl.
  split; [assumption|split; [|split]].
  - intro k. rewrite in_app_iff, Hkeys. simpl. intuition. now subst.
  - rewrite update_map by assumption.
    apply SSorted_map.
    apply SSorted_impl_In with (2 := Hs).
    intros p q Hp Hq.
    assert (Hf : forall r : string * Counted A,
               fst (if String.eqb (fst r) (keyOf x)
                    then (fst r, {| entry := entry (snd r); count := S (count (snd r)) |})
                    else r) = fst r)
      by (intro r; destruct (String.eqb _ _); reflexivity).
    rewrite !Hf.
    rewrite !firstIndex_app_in; [auto | |]; apply Hkeys; now apply in_map.
  - intros k c Hin. rewrite update_map in Hin by assumption.
    apply in_map_iff in Hin. destruct Hin as [[k' c'] [Heq Hin]].
    pose proof (Hc k' c' Hin) as (H1 & H2 & H3).
    rewrite count_occ_app. simpl in Heq. simpl.
    destruct (String.eqb k' (keyOf x)) eqn:E.
    + apply String.eqb_eq in E. injection Heq as Hk Hcc.
      rewrite <- Hk, <- Hcc; simpl.
      destruct (string_dec (keyOf x) k'); [|congruence].
      repeat split; [assumption | lia | now apply firstWithKey_app_found].
    + apply String.eqb_neq in E. injection Heq as Hk Hcc.
      rewrite <- Hk, <- Hcc.
      destruct (string_dec (keyOf x) k'); [congruence|].
      repeat split; [assumption | lia | now apply firstWithKey_app_found].
Qed.

Lemma tallyAll_tallied (items : list A) : tallied keyOf items (tallyAll keyOf items).
Proof.
  induction items as [|x items IH] using rev_ind.
  - unfold tallied, tallyAll; simpl.
    repeat split; try constructor; try tauto; intros k c [].
  - rewrite tallyAll_snoc.
    destruct (JsObject.get (keyOf x) (tallyAll keyOf items)) eqn:G.
    + eapply tallied_known; eassumption.
    + now apply tallied_fresh.
Qed.

End TallyFacts.

Section EnumerationOrder.

Context {V : Type}.
Variable keys : list string.

(** Enumeration turns the creation order into the listing order. *)
Lemma entries_enum (o : JsObject.t V) :
  NoDup (map fst o) ->
  StronglySorted
    (fun p q => (firstIndex (fst p) keys < firstIndex (fst q) keys)%nat) o ->
  StronglySorted (fun p q => enumBefore keys (fst p) (fst q)) (JsObject.entries o).
Proof.
  intros Hnd Hs. unfold JsObject.entries.
  apply SSorted_app.
  - apply SSorted_map.
    apply SSorted_impl_In with (2 := indexed_sorted o Hnd).
    intros [n p] [m q] Hp Hq Hlt. simpl in *.
    apply In_indexed in Hp, Hq.
    unfold enumBefore. now rewrite (proj2 Hp), (proj2 Hq).
  - unfold JsObject.named.
    apply SSorted_impl_In with (2 := SSorted_filter _ _ _ Hs).
    intros p q Hp Hq Hlt.
    apply filter_In in Hp, Hq.
    unfold enumBefore.
    destruct (JsObject.arrayIndex (fst p)); [destruct Hp; discriminate|].
    destruct (JsObject.arrayIndex (fst q)); [destruct Hq; discriminate|].
    exact Hlt.
  - intros p q Hp Hq.
    apply in_map_iff in Hp. destruct Hp as [[n p'] [Heq Hp]]. simpl in Heq. subst p'.
    apply In_indexed in Hp.
    unfold JsObject.named in Hq. apply filter_In in Hq.
    unfold enumBefore. rewrite (proj2 Hp).
    destruct (JsObject.arrayIndex (fst q)); [destruct Hq; discriminate | exact I].
Qed.

End EnumerationOrder.

Section TopLists.

Context {A : Type}.
Variable keyOf : A -> string.

Lemma values_keys (items : list A) :
  map (fun c => keyOf (entry c)) (JsObject.values (tallyAll keyOf items))
  = JsObject.keys (tallyAll keyOf items).
Proof.
  destruct (tallyAll_tallied keyOf items) as (_ & _ & _ & Hc).
  unfold JsObject.values, JsObject.keys. rewrite map_map.
  apply map_ext_in. intros [k c] Hin. simpl.
  apply (Permutation_in _ (entries_perm _)) in Hin.
  apply (Hc k c Hin).
Qed.

Lemma keys_perm (items : list A) :
  Permutation (JsObject.keys (tallyAll keyOf items)) (map fst (tallyAll keyOf items)).
Proof. unfold JsObject.keys. apply Permutation_map, entries_perm. Qed.

(** The whole ranking, of which a top list is a prefix: one element per
    distinct key, each with the first item filed under its key and the number
    of items filed under it, higher counts first and equal counts in the
    listing order of the counting object. *)
Lemma ranking_spec (items : list A) :
  let keys := map keyOf items in
  let full :=
    JsArray.sort (@metricsEngine.byCountDesc A)
      (JsObject.values (tallyAll keyOf items)) in
  NoDup (map (fun c => keyOf (entry c)) full) /\
  (forall k, In k (map (fun c => keyOf (entry c)) full) <-> In k keys) /\
  (forall c, In c full ->
     count c = count_occ string_dec keys (keyOf (entry c)) /\
     firstWithKey keyOf (keyOf (entry c)) items = Some (entry c)) /\
  StronglySorted (ranked keyOf keys) full.
Proof.
  intros keys full.
  destruct (tallyAll_tallied keyOf items) as (Hnd & Hkeys & Hs & Hc).
  fold keys in Hkeys, Hs, Hc.
  assert (Hperm : Permutation (map (fun c => keyOf (entry c)) full)
                    (map fst (tallyAll keyOf items))).
  { unfold full. rewrite (Permutation_map _ (sort_perm _)).
    rewrite values_keys. apply keys_perm. }
  split; [|split; [|split]].
  - apply (Permutation_NoDup (Permutation_sym Hperm) Hnd).
  - intro k. rewrite <- Hkeys. split; apply Permutation_in;
      [exact Hperm | exact (Permutation_sym Hperm)].
  - intros c Hin. unfold full in Hin.
    apply (Permutation_in _ (sort_perm _)) in Hin.
    unfold JsObject.values in Hin. apply in_map_iff in Hin.
    destruct Hin as [[k c'] [Heq Hin]]. simpl in Heq. subst c'.
    apply (Permutation_in _ (entries_perm _)) in Hin.
    destruct (Hc k c Hin) as (H1 & H2 & H3). rewrite H1. auto.
  - unfold full, ranked. apply sort_ranked.
    unfold JsObject.values. apply SSorted_map.
    apply SSorted_impl_In with (2 := entries_enum keys _ Hnd Hs).
    intros [k c] [k' c'] Hp Hq. simpl.
    apply (Permutation_in _ (entries_perm _)) in Hp, Hq.
    destruct (Hc k c Hp) as (H1 & _). destruct (Hc k' c' Hq) as (H1' & _).
    now rewrite H1, H1'.
Qed.

End TopLists.

Lemma trackCounts_tally (tracks : list SpotifyTrack) :
  metricsEngine.trackCounts tracks = tallyAll id tracks.
Proof. reflexivity. Qed.

Lemma artistCounts_tally (tracks : list SpotifyTrack) :
  metricsEngine.artistCounts tracks = tallyAll artist_name (allArtists tracks).
Proof.
  unfold metricsEngine.artistCounts, tallyAll, allArtists.
  generalize (JsObject.empty (Counted Artist)).
  induction tracks as [|t tracks IH]; intro o; simpl; [reflexivity|].
  rewrite fold_left_app. apply IH.
Qed.


Lemma topTracks_topOf (tracks : list SpotifyTrack) :
  metricsEngine.topTracks tracks = topOf id 10 tracks.
Proof. reflexivity. Qed.






(** ** Rounding, sums and means *)

Lemma round_comp (x y : Q) : x == y -> Num.round x = Num.round y.
Proof. intro H. unfold Num.round. now rewrite H. Qed.


Lemma of_nat_pos (n : nat) : (0 < n)%nat -> 0 < Num.of_nat n.
Proof.
  intro H. unfold Num.of_nat. change 0 with (inject_Z 0).
  rewrite <- Zlt_Qlt. lia.
Qed.

Lemma fold_left_sum {A : Type} (f : A -> Q) (l : list A) (a : Q) :
  fold_left (fun sum x => sum + f x) l a == a + sumOf f l.
Proof.
  revert a. induction l as [|x l IH]; intro a; simpl.
  - lra.
  - rewrite IH. lra.
Qed.


Lemma totalListeningTime_sumOf (tracks : list SpotifyTrack) :
  metricsEngine.totalListeningTime tracks
  == sumOf (fun t => duration_ms t / 1000 / 60) tracks.
Proof.
  unfold metricsEngine.totalListeningTime. rewrite fold_left_sum. lra.
Qed.




(** The number of keys of the artist counts is the number of distinct artist
    names. *)
Lemma uniqueArtists_distinct_names (tracks : list SpotifyTrack) :
  metricsEngine.uniqueArtists tracks
  = List.length (nodup string_dec (map artist_name (allArtists tracks))).
Proof.
  unfold metricsEngine.uniqueArtists. rewrite artistCounts_tally.
  destruct (tallyAll_tallied artist_name (allArtists tracks)) as (Hnd & Hkeys & _).
  rewrite (Permutation_length (keys_perm artist_name (allArtists tracks))).
  apply Permutation_length. apply NoDup_Permutation.
  - exact Hnd.
  - apply NoDup_nodup.
  - intro k. rewrite nodup_In. apply Hkeys.
Qed.









(** ** The recommendation analysis *)

Lemma NoDup_fst_functional {V : Type} (o : list (string * V)) (k : string) (v v' : V) :
  NoDup (map fst o) -> In (k, v) o -> In (k, v') o -> v = v'.
Proof.
  induction o as [|[k0 v0] o IH]; simpl; [tauto|].
  intros Hnd H1 H2. inversion Hnd as [|x xs Hnotin Hnd']; subst.
  destruct H1 as [H1|H1], H2 as [H2|H2].
  - congruence.
  - inversion H1; subst. exfalso. apply Hnotin. apply (in_map fst) in H2. exact H2.
  - inversion H2; subst. exfalso. apply Hnotin. apply (in_map fst) in H1. exact H1.
  - now apply IH.
Qed.

Lemma filter_sameTrack_fresh (k : string) (tl : list TrackListen.t) :
  ~ In k (map (fun l => id (TrackListen.track l)) tl) -> filter (sameTrack k) tl = [].
Proof.
  induction tl as [|l tl IH]; simpl; [reflexivity|].
  intro H. unfold sameTrack at 1.
  destruct (String.eqb _ k) eqn:E.
  - apply String.eqb_eq in E. exfalso. auto.
  - apply IH. tauto.
Qed.

Lemma grouped_step (tl : list TrackListen.t) (x : TrackListen.t)
    (o : JsObject.t metricsEngine.Analysis.t) :
  grouped tl o -> grouped (tl ++ [x]) (metricsEngine.analyseListen o x).
Proof.
  intros (Hnd & Hkeys & Hg).
  unfold metricsEngine.analyseListen.
  set (k := id (TrackListen.track x)).
  destruct (JsObject.get k o) as [a0|] eqn:G.
  - (* a record exists *)
    assert (Hin0 : In k (map fst o)).
    { apply get_Some_In in G. apply (in_map fst) in G. exact G. }
    unfold grouped. rewrite update_keys, map_app; simpl. fold k.
    split; [assumption|split].
    + intro k'. rewrite in_app_iff, <- Hkeys. simpl. intuition. now subst.
    + intros k' a Hin. rewrite update_map in Hin by assumption.
      apply in_map_iff in Hin. destruct Hin as [[k1 a1] [Heq Hin]].
      destruct (Hg k1 a1 Hin) as (H1 & H2 & H3 & H4 & H5).
      simpl in Heq. rewrite filter_app; simpl. unfold sameTrack at 2. fold k.
      destruct (String.eqb k1 k) eqn:E.
      * apply String.eqb_eq in E. injection Heq as Hk Ha.
        rewrite <- Hk, <- Ha; simpl. subst k1.
        rewrite String.eqb_refl.
        repeat split.
        -- assumption.
        -- now rewrite H2.
        -- rewrite length_app; simpl. lia.
        -- rewrite filter_app, length_app; simpl.
           destruct (TrackListen.wasEarlySkip x); simpl; lia.
        -- intro Hnil. now apply app_eq_nil in Hnil.
      * injection Heq as Hk Ha. rewrite <- Hk, <- Ha.
        rewrite String.eqb_sym, E. rewrite app_nil_r. auto.
  - (* a new record *)
    apply get_None_iff in G.
    assert (Hfresh : ~ In k (map (fun l => id (TrackListen.track l)) tl))
      by (now rewrite <- Hkeys).
    unfold JsObject.add. rewrite update_last by assumption; simpl.
    unfold grouped. rewrite !map_app; simpl. fold k.
    split; [|split].
    + apply NoDup_app; [assumption | repeat constructor; intros [] |].
      intros k' Hk' [Hk''|[]]. subst. contradiction.
    + intro k'. rewrite !in_app_iff, Hkeys. tauto.
    + intros k' a Hin. apply in_app_iff in Hin. destruct Hin as [Hin|[Hin|[]]].
      * assert (Hne : k <> k').
        { intro Heq. apply G. rewrite Heq. apply (in_map fst) in Hin. exact Hin. }
        destruct (Hg k' a Hin) as (H1 & H2 & H3 & H4 & H5).
        rewrite filter_app; simpl. unfold sameTrack at 2. fold k.
        rewrite (proj2 (String.eqb_neq k k') Hne), app_nil_r. auto.
      * injection Hin as Hk Ha. rewrite <- Hk, <- Ha; simpl.
        rewrite filter_app, (filter_sameTrack_fresh k tl Hfresh); simpl.
        unfold sameTrack, k. rewrite String.eqb_refl.
        repeat split; try reflexivity.
        -- destruct (TrackListen.wasEarlySkip x); reflexivity.
        -- discriminate.
Qed.

Lemma grouped_fold (tl : list TrackListen.t) :
  grouped tl (fold_left metricsEngine.analyseListen tl (JsObject.empty _)).
Proof.
  induction tl as [|x tl IH] using rev_ind.
  - unfold grouped; simpl. repeat split; try constructor; try tauto; intros k a [].
  - rewrite fold_left_app; simpl. now apply grouped_step.
Qed.

(** The records the recommendation loop visits. *)
Lemma In_trackAnalysis (tl : list TrackListen.t) (a : metricsEngine.Analysis.t) :
  In a (JsObject.values (metricsEngine.trackAnalysis tl)) <->
  exists k a0,
    In (k, a0) (fold_left metricsEngine.analyseListen tl (JsObject.empty _)) /\
    a = metricsEngine.setAverage a0.
Proof.
  unfold JsObject.values, metricsEngine.trackAnalysis. rewrite in_map_iff. split.
  - intros [[k a'] [Heq Hin]]. simpl in Heq. subst a'.
    apply (Permutation_in _ (entries_perm _)) in Hin.
    unfold JsObject.forEachValue in Hin. apply in_map_iff in Hin.
    destruct Hin as [[k0 a0] [Heq Hin]]. simpl in Heq. inversion Heq; subst.
    eauto.
  - intros (k & a0 & Hin & Ha).
    exists (k, a). split; [reflexivity|].
    apply (Permutation_in _ (Permutation_sym (entries_perm _))).
    unfold JsObject.forEachValue. apply in_map_iff.
    exists (k, a0). simpl. split; [congruence | assumption].
Qed.


Lemma analysis_unique (tl : list TrackListen.t) (a a' : metricsEngine.Analysis.t) :
  In a (JsObject.values (metricsEngine.trackAnalysis tl)) ->
  In a' (JsObject.values (metricsEngine.trackAnalysis tl)) ->
  id (metricsEngine.Analysis.track a) = id (metricsEngine.Analysis.track a') ->
  a = a'.
Proof.
  intros Ha Ha' Hid.
  apply In_trackAnalysis in Ha, Ha'.
  destruct Ha as (k & a0 & Hin & Ea), Ha' as (k' & a0' & Hin' & Ea').
  destruct (grouped_fold tl) as (Hnd & _ & Hg).
  destruct (Hg k a0 Hin) as (H1 & _), (Hg k' a0' Hin') as (H1' & _).
  rewrite Ea, Ea' in Hid. simpl in Hid.
  assert (Hk : k' = k) by congruence.
  rewrite Hk in Hin'.
  rewrite Ea, Ea'. f_equal.
  exact (NoDup_fst_functional _ k a0 a0' Hnd Hin Hin').
Qed.

Lemma removeCondition_test (a : metricsEngine.Analysis.t) :
  Num.gtb (metricsEngine.earlySkipRate a) (1 # 2)
  || Num.ltb (metricsEngine.Analysis.averageCompletion a) 30 = true
  <-> removeCondition a.
Proof.
  unfold removeCondition, metricsEngine.earlySkipRate.
  now rewrite orb_true_iff, gtb_gt, ltb_lt.
Qed.

Lemma keepCondition_test (a : metricsEngine.Analysis.t) :
  Num.gtb (metricsEngine.Analysis.averageCompletion a) 85
  && (metricsEngine.Analysis.earlySkipCount a =? 0)%nat = true
  <-> keepCondition a.
Proof.
  unfold keepCondition.
  now rewrite andb_true_iff, gtb_gt, Nat.eqb_eq.
Qed.

(** The loop body on a track that meets the removal test. *)
Lemma recommend_remove (a : metricsEngine.Analysis.t) :
  removeCondition a ->
  exists r,
    metricsEngine.recommend a = Some r /\
    TrackRecommendation.track r = metricsEngine.Analysis.track a /\
    TrackRecommendation.action r = remove /\
    ((1 # 2) < metricsEngine.earlySkipRate a ->
     TrackRecommendation.reason r = metricsEngine.skipReason a) /\
    (~ (1 # 2) < metricsEngine.earlySkipRate a ->
     TrackRecommendation.reason r = metricsEngine.completionReason a).
Proof.
  intro H. apply removeCondition_test in H.
  unfold metricsEngine.recommend. rewrite H.
  eexists. split; [reflexivity|]. simpl.
  repeat split.
  - intro Hr. apply gtb_gt in Hr. now rewrite Hr.
  - intro Hr. destruct (Num.gtb _ _) eqn:E; [|reflexivity].
    apply gtb_gt in E. contradiction.
Qed.

(** The loop body on a track that fails the removal test and meets the other
    one. *)
Lemma recommend_keep (a : metricsEngine.Analysis.t) :
  ~ removeCondition a -> keepCondition a ->
  exists r,
    metricsEngine.recommend a = Some r /\
    TrackRecommendation.track r = metricsEngine.Analysis.track a /\
    TrackRecommendation.action r = keep /\
    TrackRecommendation.reason r = metricsEngine.loveReason a.
Proof.
  intros Hr Hk.
  unfold metricsEngine.recommend.
  destruct (_ || _) eqn:E; [apply removeCondition_test in E; contradiction|].
  apply keepCondition_test in Hk. rewrite Hk.
  eexists. split; [reflexivity|]. simpl. auto.
Qed.

Lemma recommend_none (a : metricsEngine.Analysis.t) :
  ~ removeCondition a -> ~ keepCondition a -> metricsEngine.recommend a = None.
Proof.
  intros Hr Hk.
  unfold metricsEngine.recommend.
  destruct (_ || _) eqn:E; [apply removeCondition_test in E; contradiction|].
  destruct (_ && _) eqn:E'; [apply keepCondition_test in E'; contradiction|].
  reflexivity.
Qed.

Lemma pushedToRemove_iff (a : metricsEngine.Analysis.t) (r : TrackRecommendation.t) :
  In r (pushedToRemove a) <->
  removeCondition a /\ metricsEngine.recommend a = Some r.
Proof.
  unfold pushedToRemove.
  destruct (Qlt_le_dec (1 # 2) (metricsEngine.earlySkipRate a)) as [Hlt|Hle];
  [assert (Hc : removeCondition a) by (left; exact Hlt) | ].
  - destruct (recommend_remove a Hc) as (r0 & E & _ & Ha & _).
    rewrite E, Ha. simpl. intuition congruence.
  - destruct (Qlt_le_dec (metricsEngine.Analysis.averageCompletion a) 30) as [Hlt|Hge].
    + assert (Hc : removeCondition a) by (right; exact Hlt).
      destruct (recommend_remove a Hc) as (r0 & E & _ & Ha & _).
      rewrite E, Ha. simpl. intuition congruence.
    + assert (Hc : ~ removeCondition a).
      { intros [H|H]; [apply (Qlt_not_le _ _ H Hle) | apply (Qlt_not_le _ _ H Hge)]. }
      destruct (Qlt_le_dec 85 (metricsEngine.Analysis.averageCompletion a)) as [H85|H85];
        [destruct (Nat.eq_dec (metricsEngine.Analysis.earlySkipCount a) 0) as [H0|H0]|].
      * destruct (recommend_keep a Hc (conj H85 H0)) as (r0 & E & _ & Ha & _).
        rewrite E, Ha. simpl. tauto.
      * rewrite (recommend_none a Hc) by (intros [_ H]; contradiction). simpl. tauto.
      * rewrite (recommend_none a Hc)
          by (intros [H _]; apply (Qlt_not_le _ _ H H85)).
        simpl. tauto.
Qed.

Lemma pushedToKeep_iff (a : metricsEngine.Analysis.t) (r : TrackRecommendation.t) :
  In r (pushedToKeep a) <->
  ~ removeCondition a /\ keepCondition a /\ metricsEngine.recommend a = Some r.
Proof.
  unfold pushedToKeep.
  destruct (Qlt_le_dec (1 # 2) (metricsEngine.earlySkipRate a)) as [Hlt|Hle];
  [assert (Hc : removeCondition a) by (left; exact Hlt) | ].
  - destruct (recommend_remove a Hc) as (r0 & E & _ & Ha & _).
    rewrite E, Ha. simpl. tauto.
  - destruct (Qlt_le_dec (metricsEngine.Analysis.averageCompletion a) 30) as [Hlt|Hge].
    + assert (Hc : removeCondition a) by (right; exact Hlt).
      destruct (recommend_remove a Hc) as (r0 & E & _ & Ha & _).
      rewrite E, Ha. simpl. tauto.
    + assert (Hc : ~ removeCondition a).
      { intros [H|H]; [apply (Qlt_not_le _ _ H Hle) | apply (Qlt_not_le _ _ H Hge)]. }
      destruct (Qlt_le_dec 85 (metricsEngine.Analysis.averageCompletion a)) as [H85|H85];
        [destruct (Nat.eq_dec (metricsEngine.Analysis.earlySkipCount a) 0) as [H0|H0]|].
      * destruct (recommend_keep a Hc (conj H85 H0)) as (r0 & E & _ & Ha & _).
        rewrite E, Ha. simpl.
        assert (keepCondition a) by (split; assumption).
        intuition congruence.
      * rewrite (recommend_none a Hc) by (intros [_ H]; contradiction). simpl.
        unfold keepCondition. tauto.
      * rewrite (recommend_none a Hc)
          by (intros [H _]; apply (Qlt_not_le _ _ H H85)).
        simpl. intuition discriminate.
Qed.

Lemma recommendations_fold (l : list metricsEngine.Analysis.t)
    (rm kp : list TrackRecommendation.t) :
  fold_left
    (fun acc a =>
       match metricsEngine.recommend a with
       | Some r =>
         match TrackRecommendation.action r with
         | remove => (fst acc ++ [r], snd acc)
         | _ => (fst acc, snd acc ++ [r])
         end
       | None => acc
       end) l (rm, kp)
  = (rm ++ flat_map pushedToRemove l, kp ++ flat_map pushedToKeep l).
Proof.
  revert rm kp. induction l as [|a l IH]; intros rm kp; simpl.
  - now rewrite !app_nil_r.
  - unfold pushedToRemove at 1, pushedToKeep at 1.
    destruct (metricsEngine.recommend a) as [r|]; simpl; [|apply IH].
    destruct (TrackRecommendation.action r); simpl;
      rewrite IH, <- ?app_assoc; reflexivity.
Qed.

(** The loop pushes, in the order of its visits, what each visit pushes. *)
Lemma recommendations_pushed (tl : list TrackListen.t) :
  metricsEngine.recommendations tl
  = (flat_map pushedToRemove (JsObject.values (metricsEngine.trackAnalysis tl)),
     flat_map pushedToKeep (JsObject.values (metricsEngine.trackAnalysis tl))).
Proof.
  unfold metricsEngine.recommendations. now rewrite recommendations_fold.
Qed.

Lemma recommend_track (a : metricsEngine.Analysis.t) (r : TrackRecommendation.t) :
  metricsEngine.recommend a = Some r ->
  TrackRecommendation.track r = metricsEngine.Analysis.track a.
Proof.
  unfold metricsEngine.recommend.
  destruct (_ || _); [intro H; inversion H; reflexivity|].
  destruct (_ && _); [intro H; inversion H; reflexivity | discriminate].
Qed.





(** * Further properties *)

(** ** What the hook keeps true *)

Lemma lastOf_snoc (l : list string) (y : string) : lastOf (l ++ [y]) = Some y.
Proof.
  induction l as [|x l IH]; simpl; [reflexivity|]. now rewrite IH.
Qed.

Lemma adjacentDistinct_snoc (l : list string) (y : string) :
  adjacentDistinct l -> lastOf l <> Some y -> adjacentDistinct (l ++ [y]).
Proof.
  induction l as [|x l IH]; simpl; [tauto|].
  destruct l as [|x' l]; simpl in *.
  - intros _ H. split; [congruence | exact I].
  - intros [Hne Hd] Hlast. split; [exact Hne|].
    apply IH; [exact Hd|].
    destruct (lastOf l); exact Hlast.
Qed.

Lemma firstById_snoc (l : list SpotifyTrack) (t : SpotifyTrack) :
  firstById (l ++ [t])
  = if existsb (fun t' => String.eqb (id t') (id t)) (firstById l)
    then firstById l else firstById l ++ [t].
Proof. unfold firstById. now rewrite fold_left_app. Qed.

Lemma sumOf_app {A : Type} (f : A -> Q) (l l' : list A) :
  sumOf f (l ++ l') == sumOf f l + sumOf f l'.
Proof.
  induction l as [|x l IH]; simpl; [lra|]. rewrite IH. lra.
Qed.

Lemma recordedWell_mkTrackListen (now : Q) (t : SpotifyTrack) (P : Q) :
  recordedWell (useListeningSession.mkTrackListen now t P (duration_ms t / 1000)).
Proof. repeat split. Qed.

Lemma sessionInvariant_append (now : Q) (t : SpotifyTrack) (P : Q)
    (h : useListeningSession.Hook) :
  sessionInvariant h ->
  useListeningSession.differs (id t) (useListeningSession.lastTrackIdRef h) = true ->
  sessionInvariant
    (useListeningSession.mkHook
       (useListeningSession.append t
          (useListeningSession.mkTrackListen now t P (duration_ms t / 1000))
          (useListeningSession.session h))
       (Some (id t)) P).
Proof.
  intros (Hadj & Hlast & Htr & Htot & Hwell) Hdiff.
  unfold sessionInvariant; simpl.
  destruct (useListeningSession.isActive (useListeningSession.session h)) eqn:Ha.
  - rewrite append_trackListens by assumption.
    unfold listenIds in *. rewrite !map_app; simpl.
    split; [|split; [|split; [|split]]].
    + apply adjacentDistinct_snoc; [exact Hadj|].
      rewrite <- (Hlast eq_refl). now apply differs_true_iff.
    + intros _. now rewrite lastOf_snoc.
    + rewrite firstById_snoc, <- Htr.
      unfold useListeningSession.append. rewrite Ha; simpl. reflexivity.
    + unfold useListeningSession.append. rewrite Ha; simpl.
      rewrite sumOf_app; simpl. rewrite Htot. unfold minutesOf. lra.
    + apply Forall_app. split; [exact Hwell|].
      constructor; [apply recordedWell_mkTrackListen | constructor].
  - rewrite append_inactive by assumption. rewrite Ha.
    split; [exact Hadj|]. split; [discriminate|]. auto.
Qed.

Lemma tracked_invariant (h : useListeningSession.Hook) :
  useListeningSession.tracked h -> sessionInvariant h.
Proof.
  induction 1 as [|now h _ _|now h _ IH|h _ _|now o h _ IH].
  - unfold sessionInvariant; simpl. repeat split; try constructor; try reflexivity.
  - unfold sessionInvariant; simpl. repeat split; try constructor; try reflexivity.
  - destruct IH as (Hadj & Hlast & Htr & Htot & Hwell).
    unfold sessionInvariant; simpl.
    split; [exact Hadj|]. split; [discriminate|]. auto.
  - unfold sessionInvariant; simpl. repeat split; try constructor; try reflexivity.
  - unfold useListeningSession.pollCurrentlyPlaying.
    destruct (negb (useListeningSession.tokenAvailable o)); [exact IH|].
    destruct (useListeningSession.currentlyPlaying o) as [cp|]; [|exact IH].
    destruct (useListeningSession.item cp) as [t|]; [|exact IH].
    destruct (useListeningSession.differs _ _) eqn:Hd.
    + now apply sessionInvariant_append.
    + destruct IH as (Hadj & Hlast & Htr & Htot & Hwell).
      unfold sessionInvariant; simpl. auto.
Qed.

Lemma tracked_reachable (h : useListeningSession.Hook) :
  useListeningSession.tracked h ->
  useListeningSession.reachable (useListeningSession.session h).
Proof.
  induction 1.
  - apply useListeningSession.reach_empty.
  - now apply useListeningSession.reach_start.
  - now apply useListeningSession.reach_stop.
  - now apply useListeningSession.reach_clear.
  - now apply poll_reachable.
Qed.

Lemma twoCycles_tracked : useListeningSession.tracked twoCycles.
Proof.
  unfold twoCycles, exRun; simpl.
  repeat apply useListeningSession.tracked_poll.
  apply useListeningSession.tracked_start, useListeningSession.tracked_initial.
Qed.

Lemma poll_inactive (now : Q) (o : useListeningSession.Observation)
    (h : useListeningSession.Hook) :
  useListeningSession.isActive (useListeningSession.session h) = false ->
  useListeningSession.session (useListeningSession.pollCurrentlyPlaying now o h)
  = useListeningSession.session h.
Proof.
  intro Ha. unfold useListeningSession.pollCurrentlyPlaying.
  destruct (negb (useListeningSession.tokenAvailable o)); [reflexivity|].
  destruct (useListeningSession.currentlyPlaying o) as [cp|]; [|reflexivity].
  destruct (useListeningSession.item cp) as [t|]; [|reflexivity].
  destruct (useListeningSession.differs _ _); simpl; [|reflexivity].
  now apply append_inactive.
Qed.

(** X1: once a session is not active, no sequence of observation cycles
    changes it, whatever the cycles observe; so a stopped session keeps its
    history and its end time through any number of late cycles. *)
Theorem inactive_session_ignores_all_polls :
  forall (obs : list (Q * useListeningSession.Observation))
         (h : useListeningSession.Hook),
    useListeningSession.isActive (useListeningSession.session h) = false ->
    useListeningSession.session (useListeningSession.pollAll obs h)
    = useListeningSession.session h.
Proof.
  induction obs as [|[now o] obs IH]; intros h Ha; simpl; [reflexivity|].
  rewrite IH; rewrite poll_inactive; auto.
Qed.

(** A stop after two cycles, then two more cycles: still the two records. *)
Lemma inactive_session_ignores_all_polls_witness :
  List.length
    (useListeningSession.trackListens
       (useListeningSession.session
          (useListeningSession.pollAll
             [(7, useListeningSession.snapshot (exT3 "T3" "c" [] None) 1000);
              (8, useListeningSession.snapshot (exT1 "T1" "a" [] None) 2000)]
             (useListeningSession.stopSession 6 twoCycles)))) = 2%nat.
Proof.
  rewrite (inactive_session_ignores_all_polls _
             (useListeningSession.stopSession 6 twoCycles) eq_refl).
  reflexivity.
Defined.

(** X2: in no state the hook reaches from its first render by start, stop,
    clear and observation cycles do two consecutive listen records belong to
    the same track id: a track that plays on, or plays again right after
    itself, gets no second record. *)
Theorem no_track_recorded_twice_in_a_row :
  forall h : useListeningSession.Hook,
    useListeningSession.tracked h ->
    adjacentDistinct
      (listenIds (useListeningSession.trackListens (useListeningSession.session h))).
Proof. intros h H. apply (tracked_invariant h H). Qed.

Lemma no_track_recorded_twice_in_a_row_witness :
  adjacentDistinct
    (listenIds (useListeningSession.trackListens (useListeningSession.session twoCycles))).
Proof. apply (no_track_recorded_twice_in_a_row twoCycles twoCycles_tracked). Defined.

Lemma In_firstById (l : list SpotifyTrack) :
  forall k : string, In k (map id (firstById l)) <-> In k (map id l).
Proof.
  induction l as [|t l IH] using rev_ind; intro k; [reflexivity|].
  rewrite firstById_snoc, map_app, in_app_iff; simpl.
  destruct (existsb _ _) eqn:E.
  - rewrite IH. apply existsb_id_In in E. rewrite IH in E.
    split; [tauto|]. intros [H|[H|[]]]; [exact H | now subst].
  - rewrite map_app, in_app_iff, IH. simpl. tauto.
Qed.

Lemma firstById_length (l : list SpotifyTrack) :
  (List.length (firstById l) <= List.length l)%nat.
Proof.
  induction l as [|t l IH] using rev_ind; [apply Nat.le_refl|].
  rewrite firstById_snoc, length_app; simpl.
  destruct (existsb _ _); [|rewrite length_app; simpl]; lia.
Qed.

(** X3: in every state the hook reaches, the session's tracks are the tracks
    of its listen records in order, each id kept at its first occurrence
    only; so a track id is among the tracks exactly when some record has it,
    and there are at most as many tracks as records. *)
Theorem tracks_are_first_listens :
  forall h : useListeningSession.Hook,
    useListeningSession.tracked h ->
    let s := useListeningSession.session h in
    useListeningSession.tracks s
      = firstById (map TrackListen.track (useListeningSession.trackListens s)) /\
    (forall k, In k (map id (useListeningSession.tracks s))
               <-> In k (listenIds (useListeningSession.trackListens s))) /\
    (List.length (useListeningSession.tracks s)
     <= List.length (useListeningSession.trackListens s))%nat.
Proof.
  intros h H s.
  destruct (tracked_invariant h H) as (_ & _ & Htr & _). fold s in Htr.
  split; [exact Htr|]. rewrite Htr. split.
  - intro k. rewrite In_firstById. unfold listenIds. now rewrite map_map.
  - rewrite <- (length_map TrackListen.track (useListeningSession.trackListens s)).
    apply firstById_length.
Qed.

Lemma tracks_are_first_listens_witness :
  map id (useListeningSession.tracks (useListeningSession.session twoCycles))
  = ["T1"%string; "T2"%string].
Proof.
  destruct (tracks_are_first_listens twoCycles twoCycles_tracked) as [E _].
  rewrite E. reflexivity.
Defined.





(** ** Duration and statistics of the session *)

Lemma poll_keeps_times (now : Q) (o : useListeningSession.Observation)
    (h : useListeningSession.Hook) :
  useListeningSession.startTime
    (useListeningSession.session (useListeningSession.pollCurrentlyPlaying now o h))
  = useListeningSession.startTime (useListeningSession.session h) /\
  useListeningSession.endTime
    (useListeningSession.session (useListeningSession.pollCurrentlyPlaying now o h))
  = useListeningSession.endTime (useListeningSession.session h).
Proof.
  unfold useListeningSession.pollCurrentlyPlaying.
  destruct (negb (useListeningSession.tokenAvailable o)); [auto|].
  destruct (useListeningSession.currentlyPlaying o) as [cp|]; [|auto].
  destruct (useListeningSession.item cp) as [t|]; [|auto].
  destruct (useListeningSession.differs _ _); simpl; [|auto].
  unfold useListeningSession.append.
  destruct (negb _); simpl; auto.
Qed.

Lemma pollAll_keeps_times (obs : list (Q * useListeningSession.Observation)) :
  forall h : useListeningSession.Hook,
    useListeningSession.startTime
      (useListeningSession.session (useListeningSession.pollAll obs h))
    = useListeningSession.startTime (useListeningSession.session h) /\
    useListeningSession.endTime
      (useListeningSession.session (useListeningSession.pollAll obs h))
    = useListeningSession.endTime (useListeningSession.session h).
Proof.
  induction obs as [|[now o] obs IH]; intro h; simpl; [auto|].
  destruct (IH (useListeningSession.pollCurrentlyPlaying now o h)) as [E1 E2].
  destruct (poll_keeps_times now o h) as [E3 E4].
  split; congruence.
Qed.


Lemma round_mono (x y : Q) : x <= y -> (Num.round x <= Num.round y)%Z.
Proof. intro H. unfold Num.round. apply Qfloor_resp_le. lra. Qed.

(** X6: a session started at clock reading [t0] and stopped at [t1], neither
    of them zero, lasts floor((t1 - t0) / 1000 / 60) minutes for
    [getSessionDuration], whatever cycles ran in between or after and
    whatever the clock reads when asked; the metrics engine, given the
    session's timestamps, reports the same sessionDuration. *)
Theorem stopped_session_has_a_fixed_duration :
  forall (h : useListeningSession.Hook) (t0 t1 now : Q)
         (during after : list (Q * useListeningSession.Observation)),
    ~ t0 == 0 -> ~ t1 == 0 ->
    let h' :=
      useListeningSession.pollAll after
        (useListeningSession.stopSession t1
           (useListeningSession.pollAll during
              (useListeningSession.startSession t0 h))) in
    let s := useListeningSession.session h' in
    useListeningSession.getSessionDuration now h'
      = Num.floor ((t1 - t0) / 1000 / 60) /\
    metricsEngine.sessionDuration (useListeningSession.tracks s)
      (useListeningSession.startTime s) (useListeningSession.endTime s)
      = Num.floor ((t1 - t0) / 1000 / 60).
Proof.
  intros h t0 t1 now during after H0 H1 h' s.
  assert (Hst : useListeningSession.startTime s = Some t0
                /\ useListeningSession.endTime s = Some t1).
  { unfold s, h'.
    destruct (pollAll_keeps_times after
                (useListeningSession.stopSession t1
                   (useListeningSession.pollAll during
                      (useListeningSession.startSession t0 h)))) as [E1 E2].
    rewrite E1, E2; simpl.
    destruct (pollAll_keeps_times during
                (useListeningSession.startSession t0 h)) as [E3 _].
    rewrite E3. auto. }
  destruct Hst as [Es Ee].
  unfold useListeningSession.getSessionDuration, metricsEngine.sessionDuration.
  fold s. rewrite Es, Ee.
  rewrite (truthy_true t0 H0), (truthy_true t1 H1). auto.
Qed.

Lemma stopped_session_has_a_fixed_duration_witness :
  useListeningSession.getSessionDuration 999999999
    (useListeningSession.stopSession 240000
       (useListeningSession.startSession 60000 useListeningSession.initial))
  = 3%Z.
Proof.
  destruct (stopped_session_has_a_fixed_duration useListeningSession.initial
              60000 240000 999999999 [] [])
    as [E _]; [discriminate | discriminate |].
  simpl in E. rewrite E. reflexivity.
Defined.





Lemma sumOf_firstById_le (l : list SpotifyTrack) :
  Forall (fun t => 0 <= duration_ms t) l ->
  sumOf minutesOf (firstById l) <= sumOf minutesOf l.
Proof.
  induction l as [|t l IH] using rev_ind; intro H; [apply Qle_refl|].
  apply Forall_app in H. destruct H as [Hl Ht].
  inversion Ht as [|t' l' Hd _]; subst.
  specialize (IH Hl).
  assert (Hm : 0 <= minutesOf t).
  { unfold minutesOf, Qdiv. repeat apply Qmult_le_0_compat; try discriminate. exact Hd. }
  rewrite firstById_snoc.
  destruct (existsb _ _).
  - rewrite sumOf_app; simpl. lra.
  - rewrite !sumOf_app; simpl. lra.
Qed.

Lemma firstById_full (l : list SpotifyTrack) :
  List.length (firstById l) = List.length l -> firstById l = l.
Proof.
  induction l as [|t l IH] using rev_ind; intro H; [reflexivity|].
  rewrite firstById_snoc in *.
  pose proof (firstById_length l) as Hle.
  destruct (existsb _ _).
  - rewrite length_app in H; simpl in H. lia.
  - rewrite !length_app in H; simpl in H.
    rewrite IH by lia. reflexivity.
Qed.

Lemma sumOf_map {A B : Type} (f : B -> Q) (g : A -> B) (l : list A) :
  sumOf f (map g l) = sumOf (fun x => f (g x)) l.
Proof. induction l as [|x l IH]; simpl; [reflexivity|]. now rewrite IH. Qed.

(** X9: in every state the hook reaches whose tracks have no negative
    duration, the total listening time of [getSessionStats] (every listen
    record counts its whole track) is at least the totalListeningTime of the
    metrics engine run on the session's tracks (every distinct track counts
    once); the two are equal when no track was recorded twice. *)
Theorem stats_total_covers_engine_total :
  forall (now : Q) (h : useListeningSession.Hook) (sim : Simulated),
    useListeningSession.tracked h ->
    let s := useListeningSession.session h in
    let st := useListeningSession.getSessionStats now h in
    let m :=
      metricsEngine.calculateDetailedMetrics sim
        (useListeningSession.tracks s) (useListeningSession.trackListens s)
        (useListeningSession.startTime s) (useListeningSession.endTime s) in
    Forall (fun l => 0 <= duration_ms (TrackListen.track l))
      (useListeningSession.trackListens s) ->
    (DetailedMetrics.totalListeningTime m
     <= useListeningSession.SessionStats.totalListeningTime st)%Z /\
    (List.length (useListeningSession.tracks s)
     = List.length (useListeningSession.trackListens s) ->
     DetailedMetrics.totalListeningTime m
     = useListeningSession.SessionStats.totalListeningTime st).
Proof.
  intros now h sim H s st m Hpos.
  destruct (tracked_invariant h H) as (_ & _ & Htr & Htot & _).
  fold s in Htr, Htot.
  change (DetailedMetrics.totalListeningTime m)
    with (Num.round (metricsEngine.totalListeningTime (useListeningSession.tracks s))).
  change (useListeningSession.SessionStats.totalListeningTime st)
    with (Num.round (useListeningSession.totalDuration s)).
  assert (Ht : Num.round (useListeningSession.totalDuration s)
               = Num.round (sumOf minutesOf
                              (map TrackListen.track (useListeningSession.trackListens s)))).
  { apply round_comp. rewrite Htot, sumOf_map. reflexivity. }
  assert (Hm : Num.round (metricsEngine.totalListeningTime (useListeningSession.tracks s))
               = Num.round (sumOf minutesOf
                              (firstById (map TrackListen.track
                                            (useListeningSession.trackListens s))))).
  { apply round_comp. rewrite totalListeningTime_sumOf, Htr. reflexivity. }
  rewrite Ht, Hm. split.
  - apply round_mono, sumOf_firstById_le.
    apply Forall_forall. intros t Hin. apply in_map_iff in Hin.
    destruct Hin as [l [E Hl]]. subst t.
    rewrite Forall_forall in Hpos. now apply Hpos.
  - intro Hlen. rewrite firstById_full; [reflexivity|].
    rewrite <- Htr, Hlen. now rewrite length_map.
Qed.

Lemma stats_total_covers_engine_total_witness :
  DetailedMetrics.totalListeningTime
    (metricsEngine.calculateDetailedMetrics noSimulation
       (useListeningSession.tracks (useListeningSession.session twoCycles))
       (useListeningSession.trackListens (useListeningSession.session twoCycles))
       (Some 1) None)
  = useListeningSession.SessionStats.totalListeningTime
      (useListeningSession.getSessionStats 9 twoCycles).
Proof.
  destruct (stats_total_covers_engine_total 9 twoCycles noSimulation twoCycles_tracked)
    as [_ E].
  - repeat constructor; discriminate.
  - apply E. reflexivity.
Defined.

(** ** The stored copy of the session *)

Lemma poll_not_recording (now : Q) (o : useListeningSession.Observation)
    (h : useListeningSession.Hook) :
  storedSession.records o h = false ->
  useListeningSession.session (useListeningSession.pollCurrentlyPlaying now o h)
  = useListeningSession.session h.
Proof.
  unfold storedSession.records, useListeningSession.pollCurrentlyPlaying.
  destruct (useListeningSession.tokenAvailable o); simpl; [|reflexivity].
  destruct (useListeningSession.currentlyPlaying o) as [cp|]; [|reflexivity].
  destruct (useListeningSession.item cp) as [t|]; [|reflexivity].
  destruct (useListeningSession.differs _ _); simpl; [|reflexivity].
  intro Ha. now apply append_inactive.
Qed.

Lemma records_active (o : useListeningSession.Observation)
    (h : useListeningSession.Hook) :
  storedSession.records o h = true ->
  useListeningSession.isActive (useListeningSession.session h) = true.
Proof.
  unfold storedSession.records. intro H.
  apply andb_true_iff in H. apply H.
Qed.

(** The stored session is the one in memory and has a start time; with
    nothing stored the session in memory is the empty one. *)
Lemma inUse_stored (d : storedSession.Device) :
  storedSession.inUse d ->
  match storedSession.stored d with
  | Some p =>
    useListeningSession.session (storedSession.hook d) = p /\
    Num.truthy_opt (useListeningSession.startTime p) = true
  | None =>
    useListeningSession.session (storedSession.hook d)
    = useListeningSession.emptySession
  end.
Proof.
  induction 1 as [|now d Hnow _ _|now d Ha _ IH|d _ _|now o d _ IH|d _ IH]; simpl.
  - reflexivity.
  - split; [reflexivity | now apply truthy_true].
  - split; [reflexivity|].
    destruct (storedSession.stored d) as [p|].
    + destruct IH as [E Ht]. now rewrite E.
    + rewrite IH in Ha. discriminate.
  - reflexivity.
  - destruct (storedSession.records o (storedSession.hook d)) eqn:R.
    + split; [reflexivity|].
      rewrite (proj1 (poll_keeps_times now o (storedSession.hook d))).
      pose proof (records_active _ _ R) as Ha.
      destruct (storedSession.stored d) as [p|].
      * destruct IH as [E Ht]. now rewrite E.
      * rewrite IH in Ha. discriminate.
    + rewrite (poll_not_recording now o _ R). exact IH.
  - unfold storedSession.mount, storedSession.loadSession; simpl.
    destruct (storedSession.stored d) as [p|]; [|reflexivity].
    destruct IH as [E Ht]. rewrite Ht; simpl. auto.
Qed.

Lemma mount_session (d : storedSession.Device) :
  storedSession.inUse d ->
  useListeningSession.session (storedSession.hook (storedSession.mount d))
    = useListeningSession.session (storedSession.hook d) /\
  storedSession.stored (storedSession.mount d) = storedSession.stored d /\
  useListeningSession.lastTrackIdRef (storedSession.hook (storedSession.mount d))
    = None.
Proof.
  intro H. pose proof (inUse_stored d H) as J.
  unfold storedSession.mount, storedSession.loadSession; simpl.
  destruct (storedSession.stored d) as [p|].
  - destruct J as [E Ht]. rewrite Ht; simpl. auto.
  - simpl. auto.
Qed.


Lemma twoCyclesStored_inUse : storedSession.inUse twoCyclesStored.
Proof.
  unfold twoCyclesStored.
  repeat apply storedSession.inUse_poll.
  apply storedSession.inUse_start; [discriminate | apply storedSession.inUse_fresh].
Qed.


(** X11: when the application is started anew during an active session while
    the track recorded last is still playing, the next observation cycle
    records that track once more, whereas without the new start the same
    cycle records nothing. *)
Theorem restart_records_the_playing_track_again :
  forall (d : storedSession.Device) (t : SpotifyTrack) (now ms : Q),
    storedSession.inUse d ->
    useListeningSession.isActive
      (useListeningSession.session (storedSession.hook d)) = true ->
    useListeningSession.lastTrackIdRef (storedSession.hook d) = Some (id t) ->
    let before :=
      useListeningSession.trackListens
        (useListeningSession.session (storedSession.hook d)) in
    let o := useListeningSession.snapshot t ms in
    useListeningSession.trackListens
      (useListeningSession.session
         (storedSession.hook (storedSession.pollCurrentlyPlaying now o d)))
      = before /\
    useListeningSession.trackListens
      (useListeningSession.session
         (storedSession.hook
            (storedSession.pollCurrentlyPlaying now o (storedSession.mount d))))
      = before ++ [useListeningSession.mkTrackListen now t
                     (useListeningSession.progressMs
                        (useListeningSession.mkPlaying (Some t) (Some ms)) / 1000)
                     (duration_ms t / 1000)].
Proof.
  intros d t now ms H Ha Hlast before o.
  destruct (mount_session d H) as (E & _ & Eref).
  split.
  - simpl. unfold useListeningSession.pollCurrentlyPlaying; simpl.
    rewrite Hlast; simpl. now rewrite String.eqb_refl.
  - simpl. unfold useListeningSession.pollCurrentlyPlaying; simpl.
    rewrite Eref; simpl. rewrite E.
    now rewrite append_trackListens.
Qed.

Lemma restart_records_the_playing_track_again_witness :
  List.length
    (useListeningSession.trackListens
       (useListeningSession.session
          (storedSession.hook
             (storedSession.pollCurrentlyPlaying 9
                (useListeningSession.snapshot (exT2 "T2" "b" [] None) 40000)
                (storedSession.mount twoCyclesStored))))) = 3%nat.
Proof.
  destruct (restart_records_the_playing_track_again twoCyclesStored
              (exT2 "T2"%string "b"%string [] None) 9 40000
              twoCyclesStored_inUse eq_refl eq_refl) as [_ E].
  rewrite E. reflexivity.
Defined.

(** ** Bounds and sizes of the engine's figures *)

Lemma of_nat_le (n m : nat) : (n <= m)%nat -> Num.of_nat n <= Num.of_nat m.
Proof. intro H. unfold Num.of_nat. rewrite <- Zle_Qle. lia. Qed.

Lemma of_nat_nonneg (n : nat) : 0 <= Num.of_nat n.
Proof. apply (of_nat_le 0 n). lia. Qed.

Lemma percentage_bounds (a b : Q) :
  0 <= a -> a <= b -> 0 < b -> 0 <= a / b * 100 /\ a / b * 100 <= 100.
Proof.
  intros Ha Hab Hb.
  assert (H0 : 0 <= a / b) by (apply Qle_shift_div_l; [exact Hb | lra]).
  assert (H1 : a / b <= 1) by (apply Qle_shift_div_r; [exact Hb | lra]).
  generalize dependent (a / b). intros q H0 H1. split; lra.
Qed.

(** The rounded percentage of a part of a whole lies between 0 and 100. *)
Lemma round_percentage (k n : nat) :
  (k <= n)%nat -> (0 < n)%nat ->
  (0 <= Num.round (Num.of_nat k / Num.of_nat n * 100) <= 100)%Z.
Proof.
  intros Hk Hn.
  destruct (percentage_bounds (Num.of_nat k) (Num.of_nat n)
              (of_nat_nonneg k) (of_nat_le k n Hk) (of_nat_pos n Hn)) as [H0 H1].
  split.
  - change 0%Z with (Num.round 0). now apply round_mono.
  - change 100%Z with (Num.round 100). now apply round_mono.
Qed.

Lemma filter_length_le {A : Type} (p : A -> bool) (l : list A) :
  (List.length (filter p l) <= List.length l)%nat.
Proof.
  induction l as [|x l IH]; simpl; [lia|]. destruct (p x); simpl; lia.
Qed.

(** X12: whatever the listens, the engine's skipRate and completionRate lie
    between 0 and 100 and add up to 100, and totalSkips is at most the number
    of listens. *)
Theorem skip_and_completion_rates_are_percentages :
  forall (sim : Simulated) (tracks : list SpotifyTrack)
         (trackListens : list TrackListen.t) (sessionStart sessionEnd : option Q),
    let m :=
      metricsEngine.calculateDetailedMetrics sim tracks trackListens
        sessionStart sessionEnd in
    (0 <= DetailedMetrics.skipRate m <= 100)%Z /\
    (0 <= DetailedMetrics.completionRate m <= 100)%Z /\
    (DetailedMetrics.skipRate m + DetailedMetrics.completionRate m = 100)%Z /\
    (DetailedMetrics.totalSkips m <= List.length trackListens)%nat.
Proof.
  intros sim tracks tl s e m.
  assert (Hk : (metricsEngine.totalSkips tl <= List.length tl)%nat)
    by apply filter_length_le.
  assert (Hr : (0 <= metricsEngine.skipRate tl <= 100)%Z).
  { unfold metricsEngine.skipRate.
    destruct (0 <? List.length tl)%nat eqn:E; [|lia].
    apply Nat.ltb_lt in E. now apply round_percentage. }
  simpl. unfold metricsEngine.completionRate. repeat split; lia.
Qed.

Lemma In_firstn {A : Type} (n : nat) (l : list A) (x : A) :
  In x (firstn n l) -> In x l.
Proof.
  revert l. induction n as [|n IH]; intros [|y l]; simpl; try tauto.
  intros [H|H]; [now left | right; now apply IH].
Qed.










Lemma nodup_length_le (l : list string) :
  (List.length (nodup string_dec l) <= List.length l)%nat.
Proof.
  apply NoDup_incl_length; [apply NoDup_nodup|].
  intros x Hx. now apply nodup_In in Hx.
Qed.

Lemma allArtists_length (tracks : list SpotifyTrack) :
  Forall (fun t => (List.length (artists t) <= 1)%nat) tracks ->
  (List.length (allArtists tracks) <= List.length tracks)%nat.
Proof.
  unfold allArtists.
  induction 1 as [|t tracks Ht _ IH]; simpl; [lia|].
  rewrite length_app. lia.
Qed.

(** X15: the engine's listeningDiversity is never negative, and it is at
    most 100 when no track has more than one artist (with several artists
    per track there can be more unique artists than tracks). *)
Theorem listening_diversity_bounds :
  forall (sim : Simulated) (tracks : list SpotifyTrack)
         (trackListens : list TrackListen.t) (sessionStart sessionEnd : option Q),
    let m :=
      metricsEngine.calculateDetailedMetrics sim tracks trackListens
        sessionStart sessionEnd in
    (0 <= DetailedMetrics.listeningDiversity m)%Z /\
    (Forall (fun t => (List.length (artists t) <= 1)%nat) tracks ->
     (DetailedMetrics.listeningDiversity m <= 100)%Z).
Proof.
  intros sim tracks tl s e m. simpl.
  unfold metricsEngine.listeningDiversity.
  destruct (0 <? metricsEngine.uniqueArtists tracks)%nat eqn:E; [|split; lia].
  apply Nat.ltb_lt in E. split.
  - change 0%Z with (Num.round 0). apply round_mono.
    apply Qmult_le_0_compat; [|discriminate].
    apply Qmult_le_0_compat; [apply of_nat_nonneg|].
    apply Qinv_le_0_compat, of_nat_nonneg.
  - intro Hone.
    assert (Hle : (metricsEngine.uniqueArtists tracks <= List.length tracks)%nat).
    { rewrite uniqueArtists_distinct_names.
      etransitivity; [apply nodup_length_le|].
      rewrite length_map. now apply allArtists_length. }
    apply round_percentage; lia.
Qed.

Lemma listening_diversity_bounds_witness :
  (DetailedMetrics.listeningDiversity
     (metricsEngine.calculateDetailedMetrics noSimulation twentyTracks [] None None)
   <= 100)%Z.
Proof.
  destruct (listening_diversity_bounds noSimulation twentyTracks [] None None)
    as [_ H].
  apply H. repeat constructor.
Defined.

(** ** The two recommendation lists *)

Lemma analysis_ids_nodup (tl : list TrackListen.t) :
  NoDup (map (fun a => id (metricsEngine.Analysis.track a))
           (JsObject.values (metricsEngine.trackAnalysis tl))) /\
  List.length (JsObject.values (metricsEngine.trackAnalysis tl))
  = List.length (nodup string_dec (listenIds tl)).
Proof.
  destruct (grouped_fold tl) as (Hnd & Hkeys & Hg).
  set (o := fold_left metricsEngine.analyseListen tl (JsObject.empty _)) in *.
  assert (Hfst : map fst (metricsEngine.trackAnalysis tl) = map fst o).
  { unfold metricsEngine.trackAnalysis, JsObject.forEachValue. fold o.
    rewrite map_map. reflexivity. }
  assert (Hid : map (fun a => id (metricsEngine.Analysis.track a))
                  (JsObject.values (metricsEngine.trackAnalysis tl))
                = map fst (JsObject.entries (metricsEngine.trackAnalysis tl))).
  { unfold JsObject.values. rewrite map_map.
    apply map_ext_in. intros [k a] Hin. simpl.
    apply (Permutation_in _ (entries_perm _)) in Hin.
    unfold metricsEngine.trackAnalysis, JsObject.forEachValue in Hin. fold o in Hin.
    apply in_map_iff in Hin. destruct Hin as [[k0 a0] [Heq Hin]].
    simpl in Heq. inversion Heq; subst. simpl.
    apply (Hg k a0 Hin). }
  assert (Hperm : Permutation
                    (map fst (JsObject.entries (metricsEngine.trackAnalysis tl)))
                    (map fst o)).
  { rewrite <- Hfst. apply Permutation_map, entries_perm. }
  split.
  - rewrite Hid. apply (Permutation_NoDup (Permutation_sym Hperm) Hnd).
  - unfold JsObject.values. rewrite length_map, <- (length_map fst).
    rewrite (Permutation_length Hperm).
    apply Permutation_length, NoDup_Permutation;
      [exact Hnd | apply NoDup_nodup |].
    intro k. rewrite nodup_In. apply Hkeys.
Qed.

Lemma pushed_at_most_one (a : metricsEngine.Analysis.t) :
  (List.length (pushedToRemove a) + List.length (pushedToKeep a) <= 1)%nat.
Proof.
  unfold pushedToRemove, pushedToKeep.
  destruct (metricsEngine.recommend a) as [r|]; simpl; [|lia].
  destruct (TrackRecommendation.action r); simpl; lia.
Qed.

Lemma pushed_track (a : metricsEngine.Analysis.t) (r : TrackRecommendation.t) :
  In r (pushedToRemove a) \/ In r (pushedToKeep a) ->
  id (TrackRecommendation.track r) = id (metricsEngine.Analysis.track a).
Proof.
  intro H.
  assert (E : metricsEngine.recommend a = Some r).
  { destruct H as [H|H]; [apply pushedToRemove_iff in H | apply pushedToKeep_iff in H];
      tauto. }
  now rewrite (recommend_track a r E).
Qed.

Lemma pushed_ids_nodup (g : metricsEngine.Analysis.t -> list TrackRecommendation.t)
    (l : list metricsEngine.Analysis.t) :
  (forall a r, In r (g a) ->
     id (TrackRecommendation.track r) = id (metricsEngine.Analysis.track a)) ->
  (forall a, (List.length (g a) <= 1)%nat) ->
  NoDup (map (fun a => id (metricsEngine.Analysis.track a)) l) ->
  NoDup (map (fun r => id (TrackRecommendation.track r)) (flat_map g l)).
Proof.
  intros Hid Hone. induction l as [|a l IH]; simpl; intro Hnd; [constructor|].
  inversion Hnd as [|x xs Hnotin Hnd']; subst.
  rewrite map_app. apply NoDup_app.
  - specialize (Hone a). destruct (g a) as [|r [|r' rest]]; simpl in *;
      [constructor | repeat constructor; intros [] | lia].
  - now apply IH.
  - intros k Hk Hk'. apply Hnotin.
    apply in_map_iff in Hk. destruct Hk as [r [Er Hr]].
    apply in_map_iff in Hk'. destruct Hk' as [r' [Er' Hr']].
    apply in_flat_map in Hr'. destruct Hr' as [a' [Ha' Hr']].
    assert (E : id (metricsEngine.Analysis.track a)
                = id (metricsEngine.Analysis.track a')).
    { rewrite <- (Hid a r Hr), <- (Hid a' r' Hr'). congruence. }
    rewrite E.
    apply (in_map (fun a0 => id (metricsEngine.Analysis.track a0)) l a' Ha').
Qed.

Lemma pushed_total_length (l : list metricsEngine.Analysis.t) :
  (List.length (flat_map pushedToRemove l) + List.length (flat_map pushedToKeep l)
   <= List.length l)%nat.
Proof.
  induction l as [|a l IH]; simpl; [lia|].
  rewrite !length_app. pose proof (pushed_at_most_one a). lia.
Qed.

(** X16: no track is recommended twice: the track ids on songsToRemove are
    pairwise distinct, so are those on songsToKeep, no id is on both lists,
    and together the lists hold at most as many entries as there are distinct
    track ids among the listens. *)
Theorem recommendation_lists_do_not_overlap :
  forall (sim : Simulated) (tracks : list SpotifyTrack)
         (trackListens : list TrackListen.t) (sessionStart sessionEnd : option Q),
    let m :=
      metricsEngine.calculateDetailedMetrics sim tracks trackListens
        sessionStart sessionEnd in
    let ids := map (fun r => id (TrackRecommendation.track r)) in
    NoDup (ids (DetailedMetrics.songsToRemove m)) /\
    NoDup (ids (DetailedMetrics.songsToKeep m)) /\
    (forall k, In k (ids (DetailedMetrics.songsToRemove m)) ->
               ~ In k (ids (DetailedMetrics.songsToKeep m))) /\
    (List.length (DetailedMetrics.songsToRemove m)
     + List.length (DetailedMetrics.songsToKeep m)
     <= List.length (nodup string_dec (listenIds trackListens)))%nat.
Proof.
  intros sim tracks tl s e m ids. simpl. unfold ids.
  destruct (analysis_ids_nodup tl) as [Hnd Hlen].
  unfold metricsEngine.songsToRemove, metricsEngine.songsToKeep.
  rewrite recommendations_pushed; simpl.
  split; [|split; [|split]].
  - apply pushed_ids_nodup; [| |exact Hnd].
    + intros a r Hr. apply pushed_track. now left.
    + intro a. pose proof (pushed_at_most_one a). lia.
  - apply pushed_ids_nodup; [| |exact Hnd].
    + intros a r Hr. apply pushed_track. now right.
    + intro a. pose proof (pushed_at_most_one a). lia.
  - intros k Hr Hk.
    apply in_map_iff in Hr. destruct Hr as [r [Er Hr]].
    apply in_map_iff in Hk. destruct Hk as [r' [Er' Hk]].
    apply in_flat_map in Hr. destruct Hr as [a [Ha Hr]].
    apply in_flat_map in Hk. destruct Hk as [a' [Ha' Hk]].
    assert (a = a').
    { apply (analysis_unique tl); auto.
      rewrite <- (pushed_track a r (or_introl Hr)).
      rewrite <- (pushed_track a' r' (or_intror Hk)). congruence. }
    subst a'.
    apply pushedToRemove_iff in Hr. apply pushedToKeep_iff in Hk. tauto.
  - rewrite <- Hlen. apply pushed_total_length.
Qed.

(** ** What the screen shows for a tracked session *)

Lemma topTracks_distinct_ids (tracks : list SpotifyTrack) :
  NoDup (map id tracks) ->
  (forall c, In c (metricsEngine.topTracks tracks) -> count c = 1%nat) /\
  metricsEngine.overplayedSongs tracks = [] /\
  metricsEngine.uniqueTracks tracks = List.length tracks.
Proof.
  intro Hnd.
  assert (Hone : forall c, In c (metricsEngine.topTracks tracks) -> count c = 1%nat).
  { intros c Hin. rewrite topTracks_topOf in Hin.
    unfold topOf, JsArray.slice0 in Hin. apply In_firstn in Hin.
    destruct (ranking_spec id tracks) as (_ & Hkeys & Hc & _).
    destruct (Hc c Hin) as [E _]. rewrite E.
    apply (proj1 (NoDup_count_occ' string_dec (map id tracks)) Hnd).
    apply Hkeys. now apply (in_map (fun c0 => id (entry c0))). }
  split; [exact Hone|]. split.
  - unfold metricsEngine.overplayedSongs, JsArray.slice0.
    assert (E : filter (fun c : Counted SpotifyTrack => (5 <? count c)%nat)
                  (metricsEngine.topTracks tracks) = []).
    { induction (metricsEngine.topTracks tracks) as [|c l IH]; [reflexivity|].
      simpl. rewrite (Hone c (or_introl eq_refl)); simpl.
      apply IH. intros d Hd. apply Hone. now right. }
    rewrite E. reflexivity.
  - unfold metricsEngine.uniqueTracks.
    rewrite (nodup_fixed_point string_dec Hnd). apply length_map.
Qed.

(** X17: for a session in any state the hook reaches, the statistics screen
    never reports a repeat: every entry of topTracks has count 1,
    overplayedSongs is empty, uniqueTracks equals trackCount, and the
    insights carry the no-repeats sentence, however often a track was
    listened to; the engine is given the session's tracks, which hold each
    id once. *)
Theorem screen_never_reports_repeats :
  forall (sim : Simulated) (h : useListeningSession.Hook) (m : DetailedMetrics.t),
    useListeningSession.tracked h ->
    WrappedScreen.metrics sim (useListeningSession.session h) = Some m ->
    (forall c, In c (DetailedMetrics.topTracks m) -> count c = 1%nat) /\
    DetailedMetrics.overplayedSongs m = [] /\
    DetailedMetrics.uniqueTracks m = DetailedMetrics.trackCount m /\
    In (metricsEngine.noRepeatsInsight (DetailedMetrics.uniqueTracks m))
       (metricsEngine.generateWrappedInsights m).
Proof.
  intros sim h m H Hm.
  unfold WrappedScreen.metrics in Hm.
  destruct (0 <? _)%nat; [|discriminate].
  inversion Hm as [Em]. clear Hm.
  pose proof (reachable_nodup _ (tracked_reachable h H)) as Hnd.
  destruct (topTracks_distinct_ids _ Hnd) as (H1 & H2 & H3).
  split; [exact H1|]. split; [exact H2|]. split; [exact H3|].
  unfold metricsEngine.generateWrappedInsights.
  rewrite !in_app_iff. do 6 right.
  cbn [DetailedMetrics.uniqueTracks DetailedMetrics.trackCount
       metricsEngine.calculateDetailedMetrics].
  rewrite H3, Nat.eqb_refl. now left.
Qed.

Lemma screen_never_reports_repeats_witness :
  exists m,
    WrappedScreen.metrics noSimulation (useListeningSession.session twoCycles) = Some m /\
    DetailedMetrics.overplayedSongs m = [] /\
    DetailedMetrics.uniqueTracks m = 2%nat.
Proof.
  eexists. split; [reflexivity|].
  destruct (screen_never_reports_repeats noSimulation twoCycles _
              twoCycles_tracked eq_refl) as (_ & H2 & H3 & _).
  split; [exact H2 | exact H3].
Defined.

(** X18: [generateWrappedInsights] never returns an empty list: it returns
    between 1 and 7 sentences, and the sentence on the peak hour is always
    among them. *)
Theorem insights_always_name_the_peak_hour :
  forall m : DetailedMetrics.t,
    (1 <= List.length (metricsEngine.generateWrappedInsights m) <= 7)%nat /\
    In (metricsEngine.peakInsight (peakListeningHour (DetailedMetrics.simulated m)))
       (metricsEngine.generateWrappedInsights m).
Proof.
  intro m. unfold metricsEngine.generateWrappedInsights. split.
  - rewrite !length_app.
    destruct (DetailedMetrics.topArtists m);
    repeat match goal with
           | |- context [if ?b then _ else _] => destruct b
           end; simpl; lia.
  - rewrite !in_app_iff. do 4 right. left. now left.
Qed.

(** X19: the insight sentence and the Peak Hour card word the same hour
    differently at noon and at midnight: for the hour 12 the sentence says
    12AM and the card 12PM, for the hour 0 the sentence says 0AM and the card
    12AM; for every other hour the two agree. *)
Theorem peak_hour_wording_differs_at_noon_and_midnight :
  (forall hour : Z,
      hour <> 0%Z -> hour <> 12%Z ->
      metricsEngine.hour12 hour = WrappedScreen.formatHour hour) /\
  metricsEngine.hour12 12 = "12AM"%string /\
  WrappedScreen.formatHour 12 = "12PM"%string /\
  metricsEngine.hour12 0 = "0AM"%string /\
  WrappedScreen.formatHour 0 = "12AM"%string.
Proof.
  split; [|repeat split].
  intros hour H0 H12.
  unfold metricsEngine.hour12, WrappedScreen.formatHour.
  destruct (hour =? 0)%Z eqn:E0; [apply Z.eqb_eq in E0; contradiction|].
  destruct (hour =? 12)%Z eqn:E12; [apply Z.eqb_eq in E12; contradiction|].
  destruct (12 <? hour)%Z eqn:E; destruct (hour <? 12)%Z eqn:E'; try reflexivity.
  - apply Z.ltb_lt in E, E'. lia.
  - apply Z.ltb_ge in E, E'. apply Z.eqb_neq in E12. lia.
Qed.

Lemma peak_hour_wording_differs_at_noon_and_midnight_witness :
  metricsEngine.hour12 15 = "3PM"%string /\
  WrappedScreen.formatHour 15 = "3PM"%string.
Proof.
  destruct peak_hour_wording_differs_at_noon_and_midnight as [H _].
  rewrite <- (H 15%Z ltac:(discriminate) ltac:(discriminate)).
  split; reflexivity.
Defined.

(** ** Listening time from the play history *)

Lemma listening_fold (after : Q) (l : list spotifyApi.PlayedItem) (a : Q) :
  fold_left
    (fun totalMinutes i =>
       if spotifyApi.playedSince after i
       then totalMinutes + spotifyApi.played_duration_ms i / 1000 / 60
       else totalMinutes) l a
  == a + sumOf (fun i => spotifyApi.played_duration_ms i / 1000 / 60)
           (filter (spotifyApi.playedSince after) l).
Proof.
  revert a. induction l as [|i l IH]; intro a; simpl; [lra|].
  rewrite IH. destruct (spotifyApi.playedSince after i); simpl; lra.
Qed.

Lemma playedSince_earlier (after after' : Q) (i : spotifyApi.PlayedItem) :
  after' <= after ->
  spotifyApi.playedSince after i = true -> spotifyApi.playedSince after' i = true.
Proof.
  unfold spotifyApi.playedSince. intro Hle.
  destruct (spotifyApi.played_at i) as [t|]; [|discriminate].
  rewrite !Qle_bool_iff. intro H. lra.
Qed.

Lemma sum_since_mono (after after' : Q) (l : list spotifyApi.PlayedItem) :
  after' <= after ->
  Forall (fun i => 0 <= spotifyApi.played_duration_ms i) l ->
  0 <= sumOf (fun i => spotifyApi.played_duration_ms i / 1000 / 60)
         (filter (spotifyApi.playedSince after) l)
  /\ sumOf (fun i => spotifyApi.played_duration_ms i / 1000 / 60)
       (filter (spotifyApi.playedSince after) l)
     <= sumOf (fun i => spotifyApi.played_duration_ms i / 1000 / 60)
          (filter (spotifyApi.playedSince after') l).
Proof.
  intros Hle. induction 1 as [|i l Hi _ IH]; simpl; [split; apply Qle_refl|].
  assert (Hm : 0 <= spotifyApi.played_duration_ms i / 1000 / 60).
  { unfold Qdiv. repeat apply Qmult_le_0_compat; try discriminate. exact Hi. }
  destruct IH as [IH0 IH1].
  destruct (spotifyApi.playedSince after i) eqn:E.
  - rewrite (playedSince_earlier after after' i Hle E). simpl. split; lra.
  - destruct (spotifyApi.playedSince after' i); simpl; split; lra.
Qed.

Lemma round_nonneg (x : Q) : 0 <= x -> (0 <= Num.round x)%Z.
Proof. intro H. change 0%Z with (Num.round 0). now apply round_mono. Qed.

(** X20: [getListeningTime] returns 0 when the history cannot be fetched or
    has no items; over a history without negative durations its result is
    never negative and never decreases when the window of days is widened;
    and an item whose [played_at] gives no time is never counted. *)
Theorem listening_time_grows_with_the_window :
  forall (now : Q) (items : list spotifyApi.PlayedItem) (daysBack daysBack' : Q),
    spotifyApi.getListeningTime now spotifyApi.fetchFailed daysBack = 0%Z /\
    spotifyApi.getListeningTime now spotifyApi.noItems daysBack = 0%Z /\
    (Forall (fun i => 0 <= spotifyApi.played_duration_ms i) items ->
     daysBack <= daysBack' ->
     (0 <= spotifyApi.getListeningTime now (spotifyApi.playedItems items) daysBack
      <= spotifyApi.getListeningTime now (spotifyApi.playedItems items) daysBack')%Z) /\
    (forall d : Q,
        spotifyApi.getListeningTime now
          (spotifyApi.playedItems (spotifyApi.mkPlayed None d :: items)) daysBack
        = spotifyApi.getListeningTime now (spotifyApi.playedItems items) daysBack).
Proof.
  intros now items d d'. split; [reflexivity|]. split; [reflexivity|]. split.
  - intros Hpos Hle. unfold spotifyApi.getListeningTime. cbv zeta.
    assert (Hafter : now - d' * 24 * 60 * 60 * 1000 <= now - d * 24 * 60 * 60 * 1000)
      by lra.
    destruct (sum_since_mono _ _ items Hafter Hpos) as [H0 H1].
    split.
    + apply round_nonneg. rewrite listening_fold. lra.
    + apply round_mono. rewrite !listening_fold. lra.
  - intro dur. reflexivity.
Qed.

Lemma listening_time_grows_with_the_window_witness :
  let history :=
    spotifyApi.playedItems
      [spotifyApi.mkPlayed (Some 999000000) 180000;
       spotifyApi.mkPlayed (Some 100000000) 240000] in
  (0 <= spotifyApi.getListeningTime 1000000000 history 1)%Z /\
  (spotifyApi.getListeningTime 1000000000 history 1
   <= spotifyApi.getListeningTime 1000000000 history 30)%Z.
Proof.
  intro history.
  destruct (listening_time_grows_with_the_window 1000000000
              [spotifyApi.mkPlayed (Some 999000000) 180000;
               spotifyApi.mkPlayed (Some 100000000) 240000] 1 30)
    as (_ & _ & H & _).
  apply H; [repeat constructor; discriminate | discriminate].
Defined.

(** ** The polling timer *)

Lemma clearInterval_single : forall i, pollTimer.clearInterval i [i] = [].
Proof.
  intro i. unfold pollTimer.clearInterval. simpl. rewrite Nat.eqb_refl. reflexivity.
Qed.

Lemma polled_invariant : forall t,
  pollTimer.polled t ->
  (1 <= pollTimer.nextHandle t)%nat /\
  match pollTimer.pollIntervalRef t with
  | Some i => (0 < i)%nat /\ pollTimer.live t = [i]
  | None => pollTimer.live t = []
  end.
Proof.
  induction 1 as [|t Ht [Hn IH]|t Ht [Hn IH]].
  - simpl. split; [lia | reflexivity].
  - unfold pollTimer.startPolling. simpl. split; [lia|]. split; [lia|].
    destruct (pollTimer.pollIntervalRef t) as [i|].
    + destruct IH as [Hi Hl]. apply Nat.ltb_lt in Hi. rewrite Hi, Hl.
      rewrite clearInterval_single. reflexivity.
    + rewrite IH. reflexivity.
  - unfold pollTimer.stopPolling.
    destruct (pollTimer.pollIntervalRef t) as [i|] eqn:Hr.
    + destruct IH as [Hi Hl]. apply Nat.ltb_lt in Hi. rewrite Hi. simpl.
      split; [exact Hn|]. rewrite Hl. apply clearInterval_single.
    + rewrite Hr. split; [exact Hn | exact IH].
Qed.

(** X21: however [startPolling] and [stopPolling] are called, at most one
    polling interval is live, and a live interval is the one the hook
    remembers: after [stopPolling] none is live, after [startPolling] exactly
    the new one. *)
Theorem at_most_one_polling_interval : forall t,
  pollTimer.polled t ->
  (List.length (pollTimer.live t) <= 1)%nat /\
  (forall i, In i (pollTimer.live t) -> pollTimer.pollIntervalRef t = Some i) /\
  pollTimer.live (pollTimer.stopPolling t) = [] /\
  pollTimer.live (pollTimer.startPolling t) = [pollTimer.nextHandle t].
Proof.
  intros t Ht.
  pose proof (polled_invariant _ (pollTimer.polled_stop Ht)) as [_ Hstop].
  pose proof (polled_invariant _ (pollTimer.polled_start Ht)) as [_ Hstart].
  destruct (polled_invariant _ Ht) as [_ Hinv].
  split; [|split; [|split]].
  - destruct (pollTimer.pollIntervalRef t); [destruct Hinv as [_ ->]|rewrite Hinv];
      simpl; lia.
  - intros i Hi. destruct (pollTimer.pollIntervalRef t) as [j|].
    + destruct Hinv as [_ Hl]. rewrite Hl in Hi. destruct Hi as [->|[]]. reflexivity.
    + rewrite Hinv in Hi. destruct Hi.
  - destruct (pollTimer.pollIntervalRef (pollTimer.stopPolling t)) as [j|] eqn:Hr.
    + exfalso. unfold pollTimer.stopPolling in Hr.
      destruct (pollTimer.pollIntervalRef t) as [i|] eqn:Hr'; [|congruence].
      destruct Hinv as [Hi _]. apply Nat.ltb_lt in Hi. rewrite Hi in Hr.
      simpl in Hr. discriminate.
    + exact Hstop.
  - simpl in Hstart. destruct Hstart as [_ Hl]. exact Hl.
Qed.

Lemma at_most_one_polling_interval_witness :
  (List.length
     (pollTimer.live (pollTimer.startPolling (pollTimer.startPolling pollTimer.noTimer)))
   <= 1)%nat.
Proof.
  apply (at_most_one_polling_interval
           (pollTimer.startPolling (pollTimer.startPolling pollTimer.noTimer))).
  apply pollTimer.polled_start, pollTimer.polled_start, pollTimer.polled_none.
Defined.

(** ** The access token *)

(** X22: a sign-in state without a recorded expiry time (null, or 0) is
    reported as expired by [isTokenExpired], yet [getAccessToken] hands its
    token out as it is, without a refresh; and whenever [isTokenExpired]
    answers false, [getAccessToken] returns the stored token. *)
Theorem token_without_expiry_is_not_refreshed : forall now refreshed a,
  (nullOrZero (useSpotifyAuth.expiresAt a) ->
     useSpotifyAuth.isTokenExpired now a = true /\
     useSpotifyAuth.getAccessToken now refreshed a = useSpotifyAuth.accessToken a) /\
  (useSpotifyAuth.isTokenExpired now a = false ->
     useSpotifyAuth.getAccessToken now refreshed a = useSpotifyAuth.accessToken a).
Proof.
  intros now refreshed a.
  unfold useSpotifyAuth.isTokenExpired, useSpotifyAuth.getAccessToken, Num.truthy.
  destruct (useSpotifyAuth.expiresAt a) as [e|]; simpl.
  - split.
    + intro He. apply Qeq_bool_iff in He. rewrite He. simpl. split; reflexivity.
    + destruct (Qeq_bool e 0); simpl; [discriminate|]. intros ->. reflexivity.
  - split; [intros _; split; reflexivity | discriminate].
Qed.

Lemma token_without_expiry_is_not_refreshed_witness :
  let a := useSpotifyAuth.mkAuth (Some "stored"%string) (Some "r"%string) None in
  useSpotifyAuth.isTokenExpired 1000 a = true /\
  useSpotifyAuth.getAccessToken 1000 (Some "fresh"%string) a = Some "stored"%string.
Proof.
  intro a.
  apply (token_without_expiry_is_not_refreshed 1000 (Some "fresh"%string) a).
  exact I.
Defined.
